(** * Polymarket trading bot: order gate, position ledger, arbitrage and
      copy-trading strategies

    A shallow embedding of the TypeScript sources

    - [src/bots/base-trading-bot.ts]   (class [BaseTradingBot])
    - [src/bots/arbitrage-bot.ts]      (class [ArbitrageBot])
    - [src/bots/copy-trading-bot.ts]   (class [CopyTradingBot])
    - [src/config/config.ts], [src/types/polymarket.ts]

    together with the two numeric worlds the code mixes: the exact decimals
    of big.js ([Big]) and JavaScript's binary64 numbers ([Number]).

    Asynchronous methods are programs of type [prog]: a tree whose nodes are
    the reads and writes of the bot's fields, the awaited calls of the REST
    client and [throw].  Logging has no influence on results and is left
    out. *)

From Stdlib Require Import ZArith QArith Qpower List String Ascii Lia Bool.
From stdpp Require Import base option list strings gmap.

Open Scope Z_scope.

(* ===================================================================== *)
(** ** Decimal digits and numeric literals                                *)
(* ===================================================================== *)

Module Lex.

(** Value of an ASCII decimal digit. *)
Definition digit_val (c : ascii) : option Z :=
  let n := Z.of_N (N_of_ascii c) in
  if (48 <=? n) && (n <=? 57) then Some (n - 48) else None.

(** Character of a digit value (meant for 0..9). *)
Definition digit_char (d : Z) : ascii := ascii_of_N (Z.to_N (48 + d)).

(** Longest prefix of decimal digits, and what follows it. *)
Fixpoint span_digits (s : string) : list Z * string :=
  match s with
  | EmptyString => ([], EmptyString)
  | String c r =>
      match digit_val c with
      | Some d => let '(ds, rest) := span_digits r in (d :: ds, rest)
      | None => ([], s)
      end
  end.

(** Digits, most significant first, to their number. *)
Definition of_digits (ds : list Z) : Z :=
  fold_left (fun acc d => 10 * acc + d) ds 0.

(** Number of decimal digits of a positive integer. *)
Fixpoint ndigits_fuel (fuel : nat) (z : Z) : Z :=
  match fuel with
  | O => 1
  | S f => if z <? 10 then 1 else 1 + ndigits_fuel f (z / 10)
  end.

Definition ndigits (z : Z) : Z := ndigits_fuel (Z.to_nat (Z.log2 z)) z.

(** Digits of a non-negative integer, most significant first; [0] prints
    as the single digit 0. *)
Fixpoint to_digits_fuel (fuel : nat) (z : Z) (acc : list Z) : list Z :=
  match fuel with
  | O => z :: acc
  | S f => if z <? 10 then z :: acc
           else to_digits_fuel f (z / 10) (z mod 10 :: acc)
  end.

Definition to_digits (z : Z) : list Z :=
  to_digits_fuel (Z.to_nat (Z.log2 z)) z [].

Definition string_of_digits (ds : list Z) : string :=
  fold_right (fun d s => String (digit_char d) s) EmptyString ds.

(** [Some r] when the string is the character [c] followed by [r]. *)
Definition strip_char (c : ascii) (s : string) : option string :=
  match s with
  | String c' r => if Ascii.eqb c' c then Some r else None
  | EmptyString => None
  end.

(** An optional sign: whether it is a minus, and the rest. *)
Definition scan_sign (s : string) : bool * string :=
  match strip_char "-" s with
  | Some r => (true, r)
  | None =>
      match strip_char "+" s with
      | Some r => (false, r)
      | None => (false, s)
      end
  end.

(** Optional exponent part [e|E [+|-] digits]: its value and the rest; when
    no digit follows, there is no exponent part and nothing is consumed. *)
Definition scan_exponent (s : string) : Z * string :=
  match s with
  | String c r =>
      if (Ascii.eqb c "e" || Ascii.eqb c "E")%bool then
        let '(neg, r') := scan_sign r in
        match span_digits r' with
        | ([], _) => (0, s)
        | (ds, rest) => ((if neg then - of_digits ds else of_digits ds), rest)
        end
      else (0, s)
  | EmptyString => (0, s)
  end.

(** Longest prefix that is an unsigned decimal literal
    [digits [. digits] [exponent]] or [. digits [exponent]]:
    integer digits, fraction digits, exponent, rest. *)
Definition scan_unsigned (s : string) : option (list Z * list Z * Z * string) :=
  let '(d1, r1) := span_digits s in
  match strip_char "." r1 with
  | Some r =>
      let '(d2, r2) := span_digits r in
      match d1, d2 with
      | [], [] => None
      | _, _ => let '(e, rest) := scan_exponent r2 in Some (d1, d2, e, rest)
      end
  | None =>
      match d1 with
      | [] => None
      | _ => let '(e, rest) := scan_exponent r1 in Some (d1, [], e, rest)
      end
  end.

End Lex.

(* ===================================================================== *)
(** ** big.js: exact decimals                                             *)
(* ===================================================================== *)

(** A [Big] is the decimal [coef * 10 ^ expo].  big.js keeps a sign, a digit
    array and an exponent; the integer coefficient stands for sign and
    digits.  The library is used with its default settings: 20 decimal
    places and rounding half up for [div], exponential notation in
    [toString] from 1e21 up and from 1e-7 down. *)
Module Big.

Record t := mk { coef : Z; expo : Z }.

Definition zero : t := mk 0 0.
Definition one : t := mk 1 0.

(** [new Big(s)] for a string: [None] stands for the thrown
    "[big.js] Invalid number".  Accepted are exactly the strings of the
    library's NUMERIC pattern: an optional minus sign, then digits with
    an optional point and fraction or a point with a fraction, then an
    optional exponent part, and nothing else. *)
Definition parse (s : string) : option t :=
  let '(neg, body) :=
    match Lex.strip_char "-" s with
    | Some r => (true, r)
    | None => (false, s)
    end in
  match Lex.scan_unsigned body with
  | Some (d1, d2, e, EmptyString) =>
      let c := Lex.of_digits (d1 ++ d2) in
      Some (mk (if neg then - c else c) (e - Z.of_nat (length d2)))
  | _ => None
  end.

(** Both coefficients over the smaller of the two exponents. *)
Definition align (a b : t) : Z * Z * Z :=
  let m := Z.min (expo a) (expo b) in
  (coef a * 10 ^ (expo a - m), coef b * 10 ^ (expo b - m), m).

Definition cmp (a b : t) : comparison :=
  let '(x, y, _) := align a b in x ?= y.

Definition lt (a b : t) : bool := match cmp a b with Lt => true | _ => false end.
Definition gt (a b : t) : bool := match cmp a b with Gt => true | _ => false end.
Definition lte (a b : t) : bool := negb (gt a b).
Definition gte (a b : t) : bool := negb (lt a b).

Definition plus (a b : t) : t :=
  let '(x, y, m) := align a b in mk (x + y) m.

Definition minus (a b : t) : t :=
  let '(x, y, m) := align a b in mk (x - y) m.

Definition DP : Z := 20.

(** [a.div(b)]: the quotient rounded to [DP] decimal places, half away
    from zero; [None] stands for the thrown "[big.js] Division by zero". *)
Definition div (a b : t) : option t :=
  if coef b =? 0 then None
  else
    let s := expo a - expo b + DP in
    let n := Z.abs (coef a) * 10 ^ Z.max s 0 in
    let d := Z.abs (coef b) * 10 ^ Z.max (- s) 0 in
    let q := (2 * n + d) / (2 * d) in
    Some (mk (Z.sgn (coef a) * Z.sgn (coef b) * q) (- DP)).

(** Coefficient without trailing zeros. *)
Fixpoint strip_fuel (fuel : nat) (c e : Z) : Z * Z :=
  match fuel with
  | O => (c, e)
  | S f => if (c mod 10 =? 0) && negb (c =? 0) then strip_fuel f (c / 10) (e + 1)
           else (c, e)
  end.

Definition normalize (a : t) : t :=
  if coef a =? 0 then zero
  else let '(c, e) := strip_fuel (Z.to_nat (Z.log2 (Z.abs (coef a)))) (coef a) (expo a) in
       mk c e.

Definition NE : Z := -7.
Definition PE : Z := 21.

Definition zeros (n : Z) : list Z := repeat 0 (Z.to_nat n).

(** big.js's [stringify] for a non-negative coefficient [c] and exponent
    [x]: exponential notation when the scientific exponent is at most
    [NE] or at least [PE], positional notation otherwise. *)
Definition stringify (c x : Z) : string :=
  let ds := Lex.to_digits c in
  let n := Z.of_nat (length ds) in
  let e := x + n - 1 in
  if (e <=? NE) || (PE <=? e) then
    Lex.string_of_digits (take 1 ds)
    +:+ (if 1 <? n then "." +:+ Lex.string_of_digits (drop 1 ds) else "")
    +:+ (if e <? 0 then "e-" else "e+")
    +:+ Lex.string_of_digits (Lex.to_digits (Z.abs e))
  else if e <? 0 then
    "0." +:+ Lex.string_of_digits (zeros (- e - 1) ++ ds)
  else if n <=? e + 1 then
    Lex.string_of_digits (ds ++ zeros (e + 1 - n))
  else
    Lex.string_of_digits (take (Z.to_nat (e + 1)) ds)
    +:+ "." +:+ Lex.string_of_digits (drop (Z.to_nat (e + 1)) ds).

(** [a.toString()]. *)
Definition toString (a : t) : string :=
  let a' := normalize a in
  let body := stringify (Z.abs (coef a')) (expo a') in
  if coef a' <? 0 then "-" +:+ body else body.

(** The rational a decimal denotes. *)
Definition value (a : t) : Q := (inject_Z (coef a) * Qpower (inject_Z 10) (expo a))%Q.

(** The same rational as a fraction of integers with positive denominator. *)
Definition frac (b : t) : Z * Z :=
  if 0 <=? expo b then (coef b * 10 ^ expo b, 1)
  else (coef b, 10 ^ (- expo b)).

End Big.

(* ===================================================================== *)
(** ** JavaScript numbers: IEEE 754 binary64                              *)
(* ===================================================================== *)

(** A finite binary64 number is a multiple of 2^-1074, the smallest
    subnormal: [Fin k] is the number [k * 2^-1074].  The sign of zero is not
    kept; the code never divides by a zero number nor inspects the sign
    of zero. *)
Inductive number : Type :=
| NaN
| Inf (neg : bool)
| Fin (k : Z).

Module Number.

(** 2^1074, the number of units in 1. *)
Definition unit : Z := 2 ^ 1074.

(** 2^1024 in units: everything from here on overflows. *)
Definition huge : Z := 2 ^ 2098.

(** Nearest integer to [n / d], ties to even ([0 <= n], [0 < d]). *)
Definition rne (n d : Z) : Z :=
  let q := n / d in
  match 2 * (n mod d) ?= d with
  | Lt => q
  | Gt => q + 1
  | Eq => if Z.even q then q else q + 1
  end.

(** Spacing of the binary64 numbers around [n / d] units: 53 significant
    bits, and never finer than one unit. *)
Definition ulp (n d : Z) : Z := 2 ^ Z.max (Z.log2 (n / d) - 52) 0.

(** The non-negative rational [n / d] units, rounded to nearest even. *)
Definition fl_pos (n d : Z) : Z :=
  let u := ulp n d in rne n (d * u) * u.

(** The rational [n / d] units ([0 < d]) as a number. *)
Definition of_units (n d : Z) : number :=
  let k := fl_pos (Z.abs n) d in
  if huge <=? k then Inf (n <? 0) else Fin (Z.sgn n * k).

(** The rational [n / d] ([0 < d]) as a number. *)
Definition round (n d : Z) : number := of_units (n * unit) d.

Definition ofZ (z : Z) : number := round z 1.

(** [x.toNumber()] of big.js, and the numeric value of a literal. *)
Definition ofBig (b : Big.t) : number :=
  if 0 <=? Big.expo b then round (Big.coef b * 10 ^ Big.expo b) 1
  else round (Big.coef b) (10 ^ (- Big.expo b)).

(** [a < b]; false when an operand is NaN. *)
Definition ltb (a b : number) : bool :=
  match a, b with
  | Fin x, Fin y => x <? y
  | Fin _, Inf neg => negb neg
  | Inf neg, Fin _ => neg
  | Inf n1, Inf n2 => n1 && negb n2
  | _, _ => false
  end.

(** [a === b] on numbers. *)
Definition eqb (a b : number) : bool :=
  match a, b with
  | Fin x, Fin y => x =? y
  | Inf n1, Inf n2 => Bool.eqb n1 n2
  | _, _ => false
  end.

Definition gtb (a b : number) : bool := ltb b a.
Definition leb (a b : number) : bool := ltb a b || eqb a b.
Definition geb (a b : number) : bool := ltb b a || eqb a b.

Definition neg (a : number) : number :=
  match a with
  | NaN => NaN
  | Inf n => Inf (negb n)
  | Fin k => Fin (- k)
  end.

Definition add (a b : number) : number :=
  match a, b with
  | Fin x, Fin y => of_units (x + y) 1
  | Fin _, Inf n => Inf n
  | Inf n, Fin _ => Inf n
  | Inf n1, Inf n2 => if Bool.eqb n1 n2 then Inf n1 else NaN
  | _, _ => NaN
  end.

Definition sub (a b : number) : number := add a (neg b).

Definition div (a b : number) : number :=
  match a, b with
  | Fin x, Fin y =>
      if y =? 0 then (if x =? 0 then NaN else Inf (x <? 0))
      else round (x * Z.sgn y) (Z.abs y)
  | Fin _, Inf _ => Fin 0
  | Inf n, Fin y => Inf (xorb n (y <? 0))
  | _, _ => NaN
  end.

(** [Math.min(a, b)]. *)
Definition min (a b : number) : number :=
  match a, b with
  | NaN, _ | _, NaN => NaN
  | _, _ => if ltb b a then b else a
  end.

Definition is_ws (c : ascii) : bool :=
  let n := Z.of_N (N_of_ascii c) in
  ((9 <=? n) && (n <=? 13)) || (n =? 32).

Fixpoint trim_ws (s : string) : string :=
  match s with
  | String c r => if is_ws c then trim_ws r else s
  | EmptyString => s
  end.

(** [parseFloat(s)]: leading white space is skipped (the ASCII white
    space; strings are byte strings here), then the longest prefix that is
    a decimal literal is read and rounded; NaN when there is none. *)
Definition parseFloat (s : string) : number :=
  let '(neg, body) := Lex.scan_sign (trim_ws s) in
  if String.prefix "Infinity" body then Inf neg
  else
    match Lex.scan_unsigned body with
    | Some (d1, d2, e, _) =>
        let c := Lex.of_digits (d1 ++ d2) in
        ofBig (Big.mk (if neg then - c else c) (e - Z.of_nat (length d2)))
    | None => NaN
    end.

(** [parseInt(s, 10)]. *)
Definition parseInt (s : string) : number :=
  let '(neg, body) := Lex.scan_sign (trim_ws s) in
  match Lex.span_digits body with
  | ([], _) => NaN
  | (ds, _) => ofZ (if neg then - Lex.of_digits ds else Lex.of_digits ds)
  end.

(** Decimal exponent of [k] units: floor of log10 of the value. *)
Definition e10 (k : Z) : Z :=
  if unit <=? k then Lex.ndigits (k / unit) - 1 else - Lex.ndigits (unit / k).

(** The decimal with [p] significant digits nearest to [k] units that
    rounds back to [k], if there is one. *)
Definition candidate (k p : Z) : option (Z * Z) :=
  let t := e10 k - (p - 1) in
  let n := k * 10 ^ Z.max (- t) 0 in
  let d := unit * 10 ^ Z.max t 0 in
  let lo := n / d in
  let hi := lo + 1 in
  let ok s := match ofBig (Big.mk s t) with Fin k' => k' =? k | _ => false end in
  let lo_first :=
    match 2 * (n mod d) ?= d with
    | Lt => true
    | Gt => false
    | Eq => Z.even lo
    end in
  let '(c1, c2) := if lo_first then (lo, hi) else (hi, lo) in
  if ok c1 then Some (c1, t) else if ok c2 then Some (c2, t) else None.

Fixpoint shortest_from (fuel : nat) (p k : Z) : option (Z * Z) :=
  match fuel with
  | O => None
  | S f =>
      match candidate k p with
      | Some r => Some r
      | None => shortest_from f (p + 1) k
      end
  end.

(** [new Big(x)] for a number [x]: big.js reads [String(x)], the shortest
    decimal that rounds back to [x]; NaN and the infinities are thrown out
    as invalid. *)
Definition toBig (x : number) : option Big.t :=
  match x with
  | Fin k =>
      if k =? 0 then Some Big.zero
      else
        match shortest_from 17 1 (Z.abs k) with
        | Some (s, t) => Some (Big.mk (Z.sgn k * s) t)
        | None => None
        end
  | _ => None
  end.

(** The rational a finite number denotes. *)
Definition value (k : Z) : Q := (inject_Z k / inject_Z unit)%Q.

End Number.

(* ===================================================================== *)
(** ** Data model ([src/types/polymarket.ts])                             *)
(* ===================================================================== *)

(** The union type ['buy' | 'sell']. *)
Module Side.
Inductive t : Type := buy | sell.

Definition eqb (a b : t) : bool :=
  match a, b with
  | buy, buy | sell, sell => true
  | _, _ => false
  end.
End Side.

(** Time stamps are milliseconds since the epoch: integers far below 2^53,
    where binary64 arithmetic and comparison are exact. *)
Module Order.
Record t := mk {
  id : string; market : string; outcome : string; side : Side.t;
  price : string; size : string; timestamp : Z; maker : option string }.
End Order.

Module OrderBook.
Record t := mk { market : string; bids : list Order.t; asks : list Order.t }.
End OrderBook.

Module Trade.
Record t := mk {
  id : string; market : string; outcome : string; side : Side.t;
  price : string; size : string; timestamp : Z;
  taker : string; maker : string }.
End Trade.

Module Position.
Record t := mk {
  market : string; outcome : string; side : string; size : string;
  averagePrice : string; unrealizedPnl : string; realizedPnl : string }.
End Position.

Module CreateOrderParams.
Record t := mk {
  market : string; outcome : string; side : Side.t;
  price : string; size : string; expiration : option Z }.
End CreateOrderParams.

Module OrderResponse.
Inductive Status := pending | filled | cancelled | rejected.
Record t := mk { id : string; status : Status }.
End OrderResponse.

Module ArbitrageOpportunity.
Record t := mk {
  market : string; outcome : string;
  buyPrice : string; sellPrice : string; profitMargin : number;
  buyOrder : Order.t; sellOrder : Order.t }.
End ArbitrageOpportunity.

Module TraderActivity.
Record t := mk {
  address : string; recentTrades : list Trade.t; winRate : number;
  totalTrades : nat; lastTradeTime : Z }.
End TraderActivity.

(* ===================================================================== *)
(** ** Configuration ([src/config/config.ts])                             *)
(* ===================================================================== *)

Module Config.

Module Trading.
Record t := mk {
  minOrderSize : number; maxOrderSize : number;
  defaultSlippage : number; maxPositions : number }.
End Trading.

Module CopyTrading.
Record t := mk {
  enabled : bool; traderAddresses : list string;
  minConfidence : number; maxPositionSize : number; followDelay : number }.
End CopyTrading.

Module Arbitrage.
Record t := mk {
  enabled : bool; minProfitMargin : number;
  maxPositionSize : number; checkInterval : number }.
End Arbitrage.

Record t := mk {
  trading : Trading.t; copyTrading : CopyTrading.t; arbitrage : Arbitrage.t }.

(** [process.env.NAME || fallback]: an unset or empty variable gives the
    fallback. *)
Definition or_default (v : option string) (fallback : string) : string :=
  match v with
  | Some (String c r) => String c r
  | _ => fallback
  end.

(** [s.split(',')]. *)
Fixpoint split_commas (s : string) : list string :=
  match s with
  | EmptyString => [EmptyString]
  | String c r =>
      if Ascii.eqb c "," then EmptyString :: split_commas r
      else match split_commas r with
           | w :: ws => String c w :: ws
           | [] => [String c EmptyString]
           end
  end.

(** The exported [config] object, read from the environment. *)
Definition load (env : string -> option string) : t :=
  mk (Trading.mk
        (Number.parseFloat (or_default (env "MIN_ORDER_SIZE") "0.01"))
        (Number.parseFloat (or_default (env "MAX_ORDER_SIZE") "1000"))
        (Number.parseFloat (or_default (env "DEFAULT_SLIPPAGE") "0.01"))
        (Number.parseInt (or_default (env "MAX_POSITIONS") "10")))
     (CopyTrading.mk
        (match env "COPY_TRADING_ENABLED" with Some s => String.eqb s "true" | None => false end)
        (match env "TRADER_ADDRESSES" with Some s => split_commas s | None => [] end)
        (Number.parseFloat (or_default (env "MIN_CONFIDENCE") "0.6"))
        (Number.parseFloat (or_default (env "MAX_POSITION_SIZE") "100"))
        (Number.parseInt (or_default (env "FOLLOW_DELAY") "1000")))
     (Arbitrage.mk
        (match env "ARBITRAGE_ENABLED" with Some s => String.eqb s "true" | None => false end)
        (Number.parseFloat (or_default (env "MIN_PROFIT_MARGIN") "0.02"))
        (Number.parseFloat (or_default (env "MAX_POSITION_SIZE") "500"))
        (Number.parseInt (or_default (env "ARBITRAGE_CHECK_INTERVAL") "5000"))).

(** The configuration of an empty environment. *)
Definition defaults : t := Eval vm_compute in load (fun _ => None).

End Config.

(* ===================================================================== *)
(** ** Bot instances and asynchronous programs                            *)
(* ===================================================================== *)

(** The fields of a bot.  One record holds the fields of [BaseTradingBot]
    and those the two subclasses add; the methods of one subclass never
    touch the fields of the other.  The [Map]s are used through [get],
    [set], [has], [delete], [clear] and [size] only. *)
Module Bot.
Record t := mk {
  accountAddress : string;
  positions : gmap string Position.t;
  isRunning : bool;
  activeOpportunities : gmap string ArbitrageOpportunity.t;
  traderActivities : gmap string TraderActivity.t }.

Definition set_positions (m : gmap string Position.t) (b : t) : t :=
  mk (accountAddress b) m (isRunning b) (activeOpportunities b) (traderActivities b).

Definition set_activeOpportunities (m : gmap string ArbitrageOpportunity.t) (b : t) : t :=
  mk (accountAddress b) (positions b) (isRunning b) m (traderActivities b).
End Bot.

(** What can be thrown. *)
Inductive error : Type :=
| InvalidNumber                                    (* big.js: invalid number *)
| DivisionByZero                                   (* big.js: division by zero *)
| SizeBelowMinimum (size : string) (min : number)
| SizeExceedsMaximum (size : string) (max : number)
| InvalidPrice (price : string)
| TypeError (what : string)
| ApiError (message : string).                     (* a rejected request *)

(** The requests of [PolymarketAPI] that the modelled methods await, with
    the type of the value a fulfilled request resolves to. *)
Inductive apiE : Type -> Type :=
| getPositions (address : string) : apiE (list Position.t)
| createOrder (params : CreateOrderParams.t) : apiE OrderResponse.t
| getOrderBook (marketId outcome : string) : apiE OrderBook.t.

Inductive call : Type :=
| Call {X : Type} (request : apiE X).

(** Programs over the fields of a bot: [Await] suspends the method until
    the request is settled, with a value or with a rejection. *)
Inductive prog (A : Type) : Type :=
| Ret (a : A)
| Throw (e : error)
| Get (k : Bot.t -> prog A)
| Put (b : Bot.t) (k : prog A)
| Await {X : Type} (request : apiE X) (k : X + error -> prog A).

Arguments Ret {A} a.
Arguments Throw {A} e.
Arguments Get {A} k.
Arguments Put {A} b k.
Arguments Await {A X} request k.

Fixpoint bind {A B : Type} (p : prog A) (f : A -> prog B) : prog B :=
  match p with
  | Ret a => f a
  | Throw e => Throw e
  | Get k => Get (fun b => bind (k b) f)
  | Put b k => Put b (bind k f)
  | Await c k => Await c (fun r => bind (k r) f)
  end.

#[global] Instance prog_ret : MRet prog := @Ret.
#[global] Instance prog_bind : MBind prog := fun A B f p => bind p f.

(** [try { p } catch (error) { handler error }]. *)
Fixpoint try_catch {A : Type} (p : prog A) (handler : error -> prog A) : prog A :=
  match p with
  | Ret a => Ret a
  | Throw e => handler e
  | Get k => Get (fun b => try_catch (k b) handler)
  | Put b k => Put b (try_catch k handler)
  | Await c k => Await c (fun r => try_catch (k r) handler)
  end.

Definition get : prog Bot.t := Get Ret.
Definition modify (f : Bot.t -> Bot.t) : prog unit := Get (fun b => Put (f b) (Ret tt)).

(** [await request]: a rejection is thrown at the await. *)
Definition await {X : Type} (request : apiE X) : prog X :=
  Await request (fun r => match r with inl x => Ret x | inr e => Throw e end).

(** [xs.forEach(body)] and [for (const x of xs) body]. *)
Fixpoint forEach {X : Type} (xs : list X) (body : X -> prog unit) : prog unit :=
  match xs with
  | [] => Ret tt
  | x :: rest => bind (body x) (fun _ => forEach rest body)
  end.

(** The world outside: how each request is settled, given the requests
    made so far. *)
Definition oracle : Type := list call -> forall X : Type, apiE X -> X + error.

(** Run a method to completion: the requests made, the fields afterwards,
    and the value returned or the error thrown. *)
Fixpoint run {A : Type} (env : oracle) (p : prog A) (tr : list call) (b : Bot.t)
  : list call * Bot.t * (A + error) :=
  match p with
  | Ret a => (tr, b, inl a)
  | Throw e => (tr, b, inr e)
  | Get k => run env (k b) tr b
  | Put b' k => run env k tr b'
  | Await c k => run env (k (env tr _ c)) (tr ++ [Call c]) b
  end.

(** [new Big(s)], [new Big(x)] and [a.div(b)] inside a method. *)
Definition BigNew (s : string) : prog Big.t :=
  match Big.parse s with Some v => Ret v | None => Throw InvalidNumber end.

Definition BigOf (x : number) : prog Big.t :=
  match Number.toBig x with Some v => Ret v | None => Throw InvalidNumber end.

Definition BigDiv (a b : Big.t) : prog Big.t :=
  match Big.div a b with Some v => Ret v | None => Throw DivisionByZero end.

(** [Big.min(a, b)].  big.js has no static [min]: [Big.min] is undefined,
    and the call throws a [TypeError] once its arguments have been
    evaluated.  The call never yields a value. *)
Definition BigMin (a b : Big.t) : prog Big.t :=
  Throw (TypeError "Big.min is not a function").

(** [xs.sort(comparefn)]: the stable sort of the language; a comparison
    that is negative puts its first argument first, NaN counts as zero. *)
Module Array.
Section Sort.
Context {A : Type} (comparefn : A -> A -> number).

Definition before (a b : A) : bool := Number.ltb (comparefn a b) (Fin 0).

Fixpoint insert (x : A) (l : list A) : list A :=
  match l with
  | [] => [x]
  | y :: l' => if before y x then y :: insert x l' else x :: y :: l'
  end.

Definition sort (l : list A) : list A := fold_right insert [] l.
End Sort.
End Array.

(* ===================================================================== *)
(** ** The bots                                                           *)
(* ===================================================================== *)

(** The template string [`${market}-${outcome}`], key of the position map
    and of the map of active opportunities. *)
Definition positionKey (market outcome : string) : string :=
  market +:+ "-" +:+ outcome.

(** [getPosition(market, outcome)]. *)
Definition getPosition (bot : Bot.t) (market outcome : string) : option Position.t :=
  Bot.positions bot !! positionKey market outcome.

(** What [refreshPositions] stores for a fetched list, entry by entry. *)
Definition storePosition (pos : Position.t) : prog unit :=
  modify (fun b =>
    Bot.set_positions
      (<[positionKey (Position.market pos) (Position.outcome pos) := pos]> (Bot.positions b)) b).

(** [refreshPositions()]. *)
Definition refreshPositions : prog unit :=
  try_catch
    (bot ← get;
     positions ← await (getPositions (Bot.accountAddress bot));
     modify (Bot.set_positions ∅);;
     forEach positions storePosition)
    (fun error => Throw error).

Definition byPriceDescending (a b : Order.t) : number :=
  Number.sub (Number.parseFloat (Order.price b)) (Number.parseFloat (Order.price a)).

Definition byPriceAscending (a b : Order.t) : number :=
  Number.sub (Number.parseFloat (Order.price a)) (Number.parseFloat (Order.price b)).

(** Truthiness of a string that may be null: [!s] is [negb (truthy s)]. *)
Definition truthy (s : option string) : bool :=
  match s with
  | Some (String _ _) => true
  | _ => false
  end.

(** [getBestPrices(market, outcome)]. *)
Definition getBestPrices (market outcome : string) : prog (option (string * string)) :=
  try_catch
    (orderBook ← await (getOrderBook market outcome);
     let bestBid :=
       if (0 <? length (OrderBook.bids orderBook))%nat
       then Order.price <$> head (Array.sort byPriceDescending (OrderBook.bids orderBook))
       else None in
     let bestAsk :=
       if (0 <? length (OrderBook.asks orderBook))%nat
       then Order.price <$> head (Array.sort byPriceAscending (OrderBook.asks orderBook))
       else None in
     match bestBid, bestAsk with
     | Some bid, Some ask =>
         if negb (truthy bestBid) || negb (truthy bestAsk) then Ret None
         else Ret (Some (bid, ask))
     | _, _ => Ret None
     end)
    (fun _ => Ret None).

Section Bots.

Variable config : Config.t.

Let trading := Config.trading config.
Let copyTrading := Config.copyTrading config.
Let arbitrage := Config.arbitrage config.

(** [canOpenPosition()]. *)
Definition canOpenPosition (bot : Bot.t) : bool :=
  Number.ltb (Number.ofZ (Z.of_nat (size (Bot.positions bot))))
             (Config.Trading.maxPositions trading).

(** The checks of [placeOrder] before anything is sent. *)
Definition validateOrder (params : CreateOrderParams.t) : prog unit :=
  size ← BigNew (CreateOrderParams.size params);
  minOrderSize ← BigOf (Config.Trading.minOrderSize trading);
  if Big.lt size minOrderSize then
    Throw (SizeBelowMinimum (CreateOrderParams.size params)
                            (Config.Trading.minOrderSize trading))
  else
    maxOrderSize ← BigOf (Config.Trading.maxOrderSize trading);
    if Big.gt size maxOrderSize then
      Throw (SizeExceedsMaximum (CreateOrderParams.size params)
                                (Config.Trading.maxOrderSize trading))
    else
      price ← BigNew (CreateOrderParams.price params);
      if Big.lt price Big.zero || Big.gt price Big.one then
        Throw (InvalidPrice (CreateOrderParams.price params))
      else Ret tt.

(** [placeOrder(params)]. *)
Definition placeOrder (params : CreateOrderParams.t) : prog OrderResponse.t :=
  try_catch
    (validateOrder params;;
     response ← await (createOrder params);
     refreshPositions;;
     Ret response)
    (fun error => Throw error).

(** [buy] and [sell]. *)
Definition buy (market outcome price size : string) : prog OrderResponse.t :=
  placeOrder (CreateOrderParams.mk market outcome Side.buy price size None).

Definition sell (market outcome price size : string) : prog OrderResponse.t :=
  placeOrder (CreateOrderParams.mk market outcome Side.sell price size None).

(** *** ArbitrageBot *)

(** [findArbitrageOpportunity(marketId, outcome)]. *)
Definition findArbitrageOpportunity (marketId outcome : string)
  : prog (option ArbitrageOpportunity.t) :=
  try_catch
    (orderBook ← await (getOrderBook marketId outcome);
     if (length (OrderBook.bids orderBook) =? 0)%nat
        || (length (OrderBook.asks orderBook) =? 0)%nat
     then Ret None
     else
       match head (Array.sort byPriceDescending (OrderBook.bids orderBook)),
             head (Array.sort byPriceAscending (OrderBook.asks orderBook)) with
       | Some bestBid, Some bestAsk =>
           bidPrice ← BigNew (Order.price bestBid);
           askPrice ← BigNew (Order.price bestAsk);
           if Big.gt bidPrice askPrice then
             quotient ← BigDiv (Big.minus bidPrice askPrice) askPrice;
             let profitMargin := Number.ofBig quotient in
             if Number.geb profitMargin (Config.Arbitrage.minProfitMargin arbitrage) then
               bidSize ← BigNew (Order.size bestBid);
               askSize ← BigNew (Order.size bestAsk);
               maxSize ← BigMin bidSize askSize;
               maxPositionSize ← BigOf (Config.Arbitrage.maxPositionSize arbitrage);
               smaller ← BigMin maxSize maxPositionSize;
               let tradeSize := Big.toString smaller in
               Ret (Some (ArbitrageOpportunity.mk
                            marketId outcome
                            (Big.toString askPrice) (Big.toString bidPrice)
                            profitMargin bestAsk bestBid))
             else Ret None
           else Ret None
       | _, _ => Throw (TypeError "undefined")
       end)
    (fun _ => Ret None).

Definition releaseOpportunity (key : string) : prog unit :=
  modify (fun b => Bot.set_activeOpportunities (delete key (Bot.activeOpportunities b)) b).

(** [executeArbitrage(opportunity)]. *)
Definition executeArbitrage (opportunity : ArbitrageOpportunity.t) : prog unit :=
  let key := positionKey (ArbitrageOpportunity.market opportunity)
                         (ArbitrageOpportunity.outcome opportunity) in
  try_catch
    (bot ← get;
     if bool_decide (is_Some (Bot.activeOpportunities bot !! key)) then Ret tt
     else if negb (canOpenPosition bot) then Ret tt
     else
       buySize ← BigNew (Order.size (ArbitrageOpportunity.buyOrder opportunity));
       sellSize ← BigNew (Order.size (ArbitrageOpportunity.sellOrder opportunity));
       maxSize ← BigMin buySize sellSize;
       maxPositionSize ← BigOf (Config.Arbitrage.maxPositionSize arbitrage);
       smaller ← BigMin maxSize maxPositionSize;
       let tradeSize := Big.toString smaller in
       modify (fun b => Bot.set_activeOpportunities
                          (<[key := opportunity]> (Bot.activeOpportunities b)) b);;
       buyOrder ← buy (ArbitrageOpportunity.market opportunity)
                       (ArbitrageOpportunity.outcome opportunity)
                       (ArbitrageOpportunity.buyPrice opportunity) tradeSize;
       sellOrder ← sell (ArbitrageOpportunity.market opportunity)
                         (ArbitrageOpportunity.outcome opportunity)
                         (ArbitrageOpportunity.sellPrice opportunity) tradeSize;
       (* the expected profit of the log line: three more decimals read *)
       BigNew (ArbitrageOpportunity.sellPrice opportunity);;
       BigNew (ArbitrageOpportunity.buyPrice opportunity);;
       BigNew tradeSize;;
       releaseOpportunity key)
    (fun _ => releaseOpportunity key).

(** *** CopyTradingBot *)

Definition sevenDays : Z := 7 * 24 * 60 * 60 * 1000.

(** [calculateWinRate(traderAddress, trades)], with the reading of
    [Date.now()] as [now]. *)
Definition calculateWinRate (now : Z) (traderAddress : string) (trades : list Trade.t)
  : number :=
  if (length trades =? 0)%nat then Fin 0
  else
    let recentTrades :=
      List.filter (fun t => now - Trade.timestamp t <? sevenDays) trades in
    if (length recentTrades =? 0)%nat then Number.ofBig (Big.mk 5 (-1))
    else
      Number.min (Number.ofBig (Big.mk 95 (-2)))
                 (Number.add (Number.ofBig (Big.mk 5 (-1)))
                             (Number.div (Number.ofZ (Z.of_nat (length recentTrades)))
                                         (Number.ofZ 100))).

(** [processTraderTrade(traderAddress, trade)]. *)
Definition processTraderTrade (traderAddress : string) (trade : Trade.t) : prog unit :=
  try_catch
    (bot ← get;
     match Bot.traderActivities bot !! traderAddress with
     | None => Ret tt
     | Some activity =>
         if Number.ltb (TraderActivity.winRate activity)
                       (Config.CopyTrading.minConfidence copyTrading)
         then Ret tt
         else
           let isTraderBuying :=
             String.eqb (Trade.taker trade) traderAddress
             && Side.eqb (Trade.side trade) Side.buy in
           let isTraderSelling :=
             String.eqb (Trade.taker trade) traderAddress
             && Side.eqb (Trade.side trade) Side.sell in
           if negb isTraderBuying && negb isTraderSelling then Ret tt
           else if negb (canOpenPosition bot) then Ret tt
           else
             let side := if isTraderBuying then Side.buy else Side.sell in
             let outcome := Trade.outcome trade in
             traderSize ← BigNew (Trade.size trade);
             maxSize ← BigOf (Config.CopyTrading.maxPositionSize copyTrading);
             smaller ← BigMin traderSize maxSize;
             let ourSize := Big.toString smaller in
             price ← BigNew (Trade.price trade);
             slippage ← BigOf (Config.Trading.defaultSlippage trading);
             let ourPrice :=
               match side with
               | Side.buy => Big.toString (Big.plus price slippage)
               | Side.sell => Big.toString (Big.minus price slippage)
               end in
             placeOrder (CreateOrderParams.mk (Trade.market trade) outcome side
                                              ourPrice ourSize None);;
             Ret tt
     end)
    (fun _ => Ret tt).

End Bots.

(* ===================================================================== *)
(** ** Notions used to state the properties                               *)
(* ===================================================================== *)

(** The position map that a fetched list leaves behind. *)
Definition ledger_of (ps : list Position.t) : gmap string Position.t :=
  fold_left
    (fun m pos => <[positionKey (Position.market pos) (Position.outcome pos) := pos]> m)
    ps ∅.

(** No hyphen occurs in the string. *)
Fixpoint hyphen_free (s : string) : bool :=
  match s with
  | EmptyString => true
  | String c r => negb (Ascii.eqb c "-") && hyphen_free r
  end.


(** The order gate of the specification: size within the configured
    bounds and price within [0, 1], closed intervals, on the rationals that
    the decimal strings and the decimal readings of the configured numbers
    denote. *)
Definition within_bounds (config : Config.t) (params : CreateOrderParams.t) : Prop :=
  exists size price lo hi,
    Big.parse (CreateOrderParams.size params) = Some size /\
    Big.parse (CreateOrderParams.price params) = Some price /\
    Number.toBig (Config.Trading.minOrderSize (Config.trading config)) = Some lo /\
    Number.toBig (Config.Trading.maxOrderSize (Config.trading config)) = Some hi /\
    (Big.value lo <= Big.value size)%Q /\ (Big.value size <= Big.value hi)%Q /\
    (0 <= Big.value price)%Q /\ (Big.value price <= 1)%Q.

(** The key under which [executeArbitrage] tracks an opportunity. *)
Definition opportunityKey (opp : ArbitrageOpportunity.t) : string :=
  positionKey (ArbitrageOpportunity.market opp) (ArbitrageOpportunity.outcome opp).

(** The trades of the last seven days, as [calculateWinRate] selects them. *)
Definition recentWithin (now : Z) (trades : list Trade.t) : list Trade.t :=
  List.filter (fun t => now - Trade.timestamp t <? sevenDays) trades.

(** The number literals [0.5] and [0.95]. *)
Definition neutralRate : number := Number.ofBig (Big.mk 5 (-1)).
Definition rateCeiling : number := Number.ofBig (Big.mk 95 (-2)).

(** [Math.min(0.95, 0.5 + count / 100)] in the arithmetic of numbers. *)
Definition heuristicRate (count : nat) : number :=
  Number.min rateCeiling
    (Number.add neutralRate (Number.div (Number.ofZ (Z.of_nat count)) (Number.ofZ 100))).

(** The price of an order is a decimal that big.js accepts. *)
Definition numeric (o : Order.t) : Prop := is_Some (Big.parse (Order.price o)).

(** The order is in the list and no price in the list is above its price
    (the best bid of the specification), on the rationals the price strings
    denote. *)
Definition highest (l : list Order.t) (o : Order.t) : Prop :=
  In o l /\
  exists p, Big.parse (Order.price o) = Some p /\
    forall o' q, In o' l -> Big.parse (Order.price o') = Some q ->
                 (Big.value q <= Big.value p)%Q.

(** The order is in the list and no price in the list is below its price
    (the best ask of the specification). *)
Definition lowest (l : list Order.t) (o : Order.t) : Prop :=
  In o l /\
  exists p, Big.parse (Order.price o) = Some p /\
    forall o' q, In o' l -> Big.parse (Order.price o') = Some q ->
                 (Big.value p <= Big.value q)%Q.


(** Checkers for [numeric] and [separated]. *)
Definition numericb (o : Order.t) : bool :=
  match Big.parse (Order.price o) with Some _ => true | None => false end.



(** Decimal digit values, and strings at which a run of digits ends. *)
Definition is_digit (d : Z) : Prop := 0 <= d <= 9.

Definition stops_digits (s : string) : Prop :=
  match s with
  | String c _ => Lex.digit_val c = None
  | EmptyString => True
  end.

(** One step of reading digits, most significant first. *)
Definition horner (acc d : Z) : Z := 10 * acc + d.

(** The test of [findArbitrageOpportunity] on the prices of the best bid
    and the best ask, under which an opportunity is to be returned: the bid
    is above the ask, and the quotient that [div] gives for the margin,
    read as a number, reaches the configured floor. *)
Definition crossing (config : Config.t) (bidPrice askPrice : Big.t) : Prop :=
  (Big.value askPrice < Big.value bidPrice)%Q /\
  exists quotient,
    Big.div (Big.minus bidPrice askPrice) askPrice = Some quotient /\
    Number.geb (Number.ofBig quotient)
               (Config.Arbitrage.minProfitMargin (Config.arbitrage config)) = true.

(** The price of an order as [parseFloat] reads it. *)
Definition reading (o : Order.t) : number := Number.parseFloat (Order.price o).

(* ===================================================================== *)
(** ** Sample worlds and inputs                                           *)
(* ===================================================================== *)

Module Sample.

(** A world that answers every position request with [positions], every
    order-book request with [book], and accepts every order. *)
Definition world (positions : list Position.t + error) (book : OrderBook.t + error)
  : oracle :=
  fun _ X request =>
    match request in apiE X return X + error with
    | getPositions _ => positions
    | createOrder _ => inl (OrderResponse.mk "order-1" OrderResponse.pending)
    | getOrderBook _ _ => book
    end.

Definition level (price size : string) : Order.t :=
  Order.mk "level" "m" "yes" Side.buy price size 0 None.

Definition emptyBook : OrderBook.t := OrderBook.mk "m" [] [].

Definition quiet : oracle := world (inl []) (inl emptyBook).

Definition offline : oracle := world (inr (ApiError "timeout")) (inr (ApiError "timeout")).

Definition held : Position.t := Position.mk "m" "yes" "yes" "3" "0.5" "0" "0".

Definition freshBot : Bot.t := Bot.mk "0xme" ∅ true ∅ ∅.

Definition holdingBot : Bot.t :=
  Bot.mk "0xme" {[ positionKey "m" "yes" := held ]} true ∅ ∅.

(** Two positions whose (market, outcome) pairs differ but share a key. *)
Definition hyphenA : Position.t := Position.mk "a-b" "c" "yes" "1" "0.5" "0" "0".
Definition hyphenB : Position.t := Position.mk "a" "b-c" "no" "2" "0.4" "0" "0".


(** A book whose two asks differ in the twentieth decimal place. *)
Definition tiedAsks : OrderBook.t :=
  OrderBook.mk "m" [level "0.6" "10"]
               [level "0.5" "8"; level "0.49999999999999999999" "8"].

(** A book with two levels on each side. *)
Definition deepBook : OrderBook.t :=
  OrderBook.mk "m" [level "0.58" "4"; level "0.60" "10"]
               [level "0.57" "5"; level "0.55" "8"].

(** A crossed book and the opportunity that is due in it. *)
Definition crossedBook : OrderBook.t :=
  OrderBook.mk "m" [level "0.60" "10"] [level "0.55" "8"].

Definition crossed : ArbitrageOpportunity.t :=
  ArbitrageOpportunity.mk "m" "yes" "0.55" "0.6" (Number.ofBig (Big.mk 9090909090909090909 (-20)))
                          (level "0.55" "8") (level "0.60" "10").

(** The same opportunity seen again: other levels, same market and outcome. *)
Definition crossedAgain : ArbitrageOpportunity.t :=
  ArbitrageOpportunity.mk "m" "yes" "0.5" "0.7" (Number.ofBig (Big.mk 4 (-1)))
                          (level "0.5" "1") (level "0.7" "2").

(** A bot whose map of active opportunities holds [crossed]. *)
Definition midExecution : Bot.t :=
  Bot.mk "0xme" ∅ true {[ opportunityKey crossed := crossed ]} ∅.

(** A followed trader and trades in which she is taker or maker. *)
Definition follower (winRate : number) : Bot.t :=
  Bot.mk "0xme" ∅ true ∅
         {[ "0xT" := TraderActivity.mk "0xT" [] winRate 0 0 ]}.

Definition takerTrade : Trade.t :=
  Trade.mk "t1" "m" "yes" Side.buy "0.40" "50" 1700000000000 "0xT" "0xM".

Definition makerTrade : Trade.t :=
  Trade.mk "t2" "m" "yes" Side.buy "0.40" "50" 1700000000000 "0xM" "0xT".

End Sample.

(** The mirrored order of the copy-trading scenario. *)
Definition mirroredBuy (market outcome : string) : CreateOrderParams.t :=
  CreateOrderParams.mk market outcome Side.buy "0.41" "20" None.

(** The configuration of the copy-trading scenario: position cap 20,
    defaults elsewhere (slippage 0.01). *)
Definition copyConfig : Config.t :=
  Eval vm_compute in
    Config.load (fun name => if String.eqb name "MAX_POSITION_SIZE" then Some "20"%string else None).

(* ===================================================================== *)
(** ** Further methods of the bots                                        *)
(* ===================================================================== *)

(** [a.mul(b)] of big.js: the exact product. *)
Definition BigMul (a b : Big.t) : Big.t :=
  Big.mk (Big.coef a * Big.coef b) (Big.expo a + Big.expo b).

(** [calculatePositionSize(accountBalance, riskPercent)]; the default of
    [riskPercent] is 1. *)
Definition calculatePositionSize (accountBalance : string) (riskPercent : number)
  : prog string :=
  balance ← BigNew accountBalance;
  factor ← BigOf (Number.div riskPercent (Number.ofZ 100));
  let riskAmount := BigMul balance factor in
  Ret (Big.toString riskAmount).

Definition defaultRiskPercent : number := Number.ofZ 1.

Module Market.
Record t := mk {
  id : string; question : string; description : string; conditionId : string;
  endDate : string; imageUrl : option string; active : bool; outcomes : list string }.
End Market.

Definition set_traderActivities (m : gmap string TraderActivity.t) (b : Bot.t) : Bot.t :=
  Bot.mk (Bot.accountAddress b) (Bot.positions b) (Bot.isRunning b)
         (Bot.activeOpportunities b) m.

(** The [Set] of followed traders.  A [Set] keeps its members in the
    order of insertion, each once: a list without duplicates. *)
Module Followed.
Definition t : Type := list string.

(** [set.add(a)]. *)
Definition add (a : string) (s : t) : t :=
  if existsb (String.eqb a) s then s else s ++ [a].

(** [set.delete(a)]. *)
Definition delete (a : string) (s : t) : t :=
  List.filter (fun x => negb (String.eqb x a)) s.

(** [new Set(array)]. *)
Definition ofArray (l : list string) : t := fold_left (fun s a => add a s) l [].
End Followed.

(** The fields of a [CopyTradingBot]: those of [Bot.t] and the followed
    traders. *)
Module CopyTradingBot.
Record t := mk { bot : Bot.t; followedTraders : Followed.t }.

(** The constructor. *)
Definition new (config : Config.t) (accountAddress : string) : t :=
  mk (Bot.mk accountAddress ∅ false ∅ ∅)
     (Followed.ofArray (Config.CopyTrading.traderAddresses (Config.copyTrading config))).

(** [addTrader(address)]. *)
Definition addTrader (address : string) (c : t) : t :=
  mk (bot c) (Followed.add address (followedTraders c)).

(** [removeTrader(address)]. *)
Definition removeTrader (address : string) (c : t) : t :=
  mk (set_traderActivities (delete address (Bot.traderActivities (bot c))) (bot c))
     (Followed.delete address (followedTraders c)).

(** [getFollowedTraders()]. *)
Definition getFollowedTraders (c : t) : list string := followedTraders c.
End CopyTradingBot.

Section MoreBots.

Variable config : Config.t.

(** *** ArbitrageBot *)

(** [checkMarketOpportunities(market)]. *)
Definition checkMarketOpportunities (market : Market.t) : prog unit :=
  try_catch
    (yesOpportunity ← findArbitrageOpportunity config (Market.id market) "yes";
     noOpportunity ← findArbitrageOpportunity config (Market.id market) "no";
     match yesOpportunity with
     | Some opportunity => executeArbitrage config opportunity
     | None => Ret tt
     end;;
     match noOpportunity with
     | Some opportunity => executeArbitrage config opportunity
     | None => Ret tt
     end)
    (fun _ => Ret tt).

(** *** CopyTradingBot *)

(** The requests of [getRecentTradesForTrader] (the markets and their
    trades) are not among [apiE]; the method catches every error and
    resolves to a list in any case.  The methods that await it are given
    the list it resolves to, [fetched], and the reading of [Date.now()],
    [now]. *)

(** The filter of [checkTraderTrades] for new trades. *)
Definition isNewTrade (activity : TraderActivity.t) (traderAddress : string)
    (trade : Trade.t) : bool :=
  (TraderActivity.lastTradeTime activity <? Trade.timestamp trade)
  && (String.eqb (Trade.maker trade) traderAddress
      || String.eqb (Trade.taker trade) traderAddress).

(** [Math.max(...trades.map((t) => t.timestamp), last)]. *)
Definition latestTime (trades : list Trade.t) (last : Z) : Z :=
  fold_right Z.max last (map Trade.timestamp trades).

(** [checkTraderTrades(traderAddress)].  The activity is one object, held
    by the map under the trader's address and updated in place; no method
    run in between replaces the entry, so the update is written to the
    map. *)
Definition checkTraderTrades (now : Z) (fetched : list Trade.t) (traderAddress : string)
  : prog unit :=
  try_catch
    (bot ← get;
     match Bot.traderActivities bot !! traderAddress with
     | None => Ret tt
     | Some activity =>
         let recentTrades := fetched in
         let newTrades := List.filter (isNewTrade activity traderAddress) recentTrades in
         if (length newTrades =? 0)%nat then Ret tt
         else
           forEach newTrades (processTraderTrade config traderAddress);;
           let updated :=
             TraderActivity.mk
               (TraderActivity.address activity)
               recentTrades
               (calculateWinRate now traderAddress recentTrades)
               (length recentTrades)
               (latestTime recentTrades (TraderActivity.lastTradeTime activity)) in
           modify (fun b =>
             set_traderActivities (<[traderAddress := updated]> (Bot.traderActivities b)) b)
     end)
    (fun _ => Ret tt).

(** [monitorTrades()], over the followed traders. *)
Definition monitorTrades (now : string -> Z) (fetched : string -> list Trade.t)
    (followedTraders : Followed.t) : prog unit :=
  bot ← get;
  if negb (Bot.isRunning bot) then Ret tt
  else
    try_catch
      (forEach followedTraders (fun traderAddress =>
         checkTraderTrades (now traderAddress) (fetched traderAddress) traderAddress))
      (fun _ => Ret tt).

(** [initializeTraderActivities()], over the followed traders. *)
Definition initializeTraderActivities (now : string -> Z) (fetched : string -> list Trade.t)
    (followedTraders : Followed.t) : prog unit :=
  forEach followedTraders (fun traderAddress =>
    try_catch
      (positions ← await (getPositions traderAddress);
       let recentTrades := fetched traderAddress in
       let activity :=
         TraderActivity.mk
           traderAddress
           recentTrades
           (calculateWinRate (now traderAddress) traderAddress recentTrades)
           (length recentTrades)
           (match recentTrades with
            | first :: _ => Trade.timestamp first
            | [] => 0
            end) in
       modify (fun b =>
         set_traderActivities (<[traderAddress := activity]> (Bot.traderActivities b)) b))
      (fun _ => Ret tt)).

End MoreBots.

(* ===================================================================== *)
(** ** Notions used to state the further properties                       *)
(* ===================================================================== *)

(** The position is stored under the key of (market, outcome). *)
Definition sameKey (market outcome : string) (p : Position.t) : bool :=
  String.eqb (positionKey (Position.market p) (Position.outcome p))
             (positionKey market outcome).

(** The activity of a trader as [checkTraderTrades] leaves it after it has
    processed new trades. *)
Definition updatedActivity (now : Z) (fetched : list Trade.t) (traderAddress : string)
    (activity : TraderActivity.t) : TraderActivity.t :=
  TraderActivity.mk
    (TraderActivity.address activity) fetched
    (calculateWinRate now traderAddress fetched) (length fetched)
    (latestTime fetched (TraderActivity.lastTradeTime activity)).

(** No trade of the list fetched for the trader is new to the bot. *)
Definition quiet (fetched : string -> list Trade.t) (b : Bot.t) (traderAddress : string)
  : Prop :=
  match Bot.traderActivities b !! traderAddress with
  | None => True
  | Some activity =>
      List.filter (isNewTrade activity traderAddress) (fetched traderAddress) = []
  end.

(** The list starts with its newest trade, as the list that
    [getRecentTradesForTrader] sorts does. *)
Definition newestFirst (trades : list Trade.t) : Prop :=
  match trades with
  | [] => True
  | first :: _ => forall t, In t trades -> Trade.timestamp t <= Trade.timestamp first
  end.

(** The activity that [initializeTraderActivities] stores for a trader. *)
Definition initialActivity (now : string -> Z) (fetched : string -> list Trade.t)
    (traderAddress : string) : TraderActivity.t :=
  TraderActivity.mk
    traderAddress (fetched traderAddress)
    (calculateWinRate (now traderAddress) traderAddress (fetched traderAddress))
    (length (fetched traderAddress))
    (match fetched traderAddress with
     | first :: _ => Trade.timestamp first
     | [] => 0
     end).

(** No comma occurs in the string. *)
Fixpoint comma_free (s : string) : bool :=
  match s with
  | EmptyString => true
  | String c r => negb (Ascii.eqb c ",") && comma_free r
  end.

(* ===================================================================== *)
(** ** Further sample environments and inputs                             *)
(* ===================================================================== *)

Module Scenario.

(** An environment that sets one variable. *)
Definition setting (name value : string) : string -> option string :=
  fun n => if String.eqb n name then Some value else None.

(** At most one position. *)
Definition tightConfig : Config.t :=
  Eval vm_compute in Config.load (setting "MAX_POSITIONS" "1").

(** Orders of at least one hundred. *)
Definition largeOrders : Config.t :=
  Eval vm_compute in Config.load (setting "MIN_ORDER_SIZE" "100").

(** One trade fetched for every trader, at one reading of the clock. *)
Definition fetched : string -> list Trade.t := fun _ => [Sample.takerTrade].

Definition clock : string -> Z := fun _ => 1700000000000.

Definition twoPositions : list Position.t := [Sample.hyphenA; Sample.hyphenB].

End Scenario.
(* ===================================================================== *)
(** * Properties                                                          *)
(* ===================================================================== *)

(** ** Running programs *)

Lemma run_bind {A B} env (p : prog A) (f : A -> prog B) tr b :
  run env (p ≫= f) tr b =
  let '(tr', b', r) := run env p tr b in
  match r with
  | inl a => run env (f a) tr' b'
  | inr e => (tr', b', inr e)
  end.
Proof.
  unfold mbind, prog_bind.
  revert tr b; induction p as [a|e|k IH|b' k IH|X c k IH]; intros tr b; cbn; auto.
Qed.

Lemma run_try_catch {A} env (p : prog A) h tr b :
  run env (try_catch p h) tr b =
  let '(tr', b', r) := run env p tr b in
  match r with
  | inl a => (tr', b', inl a)
  | inr e => run env (h e) tr' b'
  end.
Proof.
  revert tr b; induction p as [a|e|k IH|b' k IH|X c k IH]; intros tr b; cbn; auto.
Qed.

Lemma run_extends {A} env (p : prog A) tr b :
  exists more, (run env p tr b).1.1 = tr ++ more.
Proof.
  revert tr b; induction p as [a|e|k IH|b' k IH|X c k IH]; intros tr b; cbn.
  - exists []. by rewrite app_nil_r.
  - exists []. by rewrite app_nil_r.
  - apply IH.
  - apply IH.
  - destruct (IH (env tr X c) (tr ++ [Call c]) b) as [more Hm].
    exists (Call c :: more). rewrite Hm. by rewrite <- app_assoc.
Qed.

Lemma run_forEach_store env ps tr b :
  run env (forEach ps storePosition) tr b =
  (tr,
   Bot.set_positions
     (fold_left
        (fun m pos => <[positionKey (Position.market pos) (Position.outcome pos) := pos]> m)
        ps (Bot.positions b)) b,
   inl tt).
Proof.
  revert b; induction ps as [|p ps IH]; intros b; cbn.
  - by destruct b.
  - rewrite IH. by destruct b.
Qed.


Lemma run_refreshPositions (env : oracle) tr bot :
  run env refreshPositions tr bot =
  let tr' := tr ++ [Call (getPositions (Bot.accountAddress bot))] in
  match env tr _ (getPositions (Bot.accountAddress bot)) with
  | inl ps => (tr', Bot.set_positions (ledger_of ps) bot, inl tt)
  | inr e => (tr', bot, inr e)
  end.
Proof.
  unfold refreshPositions. rewrite run_try_catch. cbn.
  destruct (env tr _ (getPositions (Bot.accountAddress bot))) as [ps|e]; cbn.
  - rewrite run_forEach_store. by destruct bot.
  - reflexivity.
Qed.


Lemma sapp_nil s : "" +:+ s = s.
Proof. reflexivity. Qed.

Lemma sapp_cons c s t : String c s +:+ t = String c (s +:+ t).
Proof. reflexivity. Qed.

Lemma hyphen_free_app_hyphen m o : hyphen_free (m +:+ String "-" o) = false.
Proof.
  induction m as [|c m IH]; rewrite ?sapp_nil, ?sapp_cons; [reflexivity|].
  cbn [hyphen_free]. rewrite IH. apply andb_false_r.
Qed.

Lemma positionKey_inj m1 o1 m2 o2 :
  hyphen_free o1 = true -> hyphen_free o2 = true ->
  positionKey m1 o1 = positionKey m2 o2 -> m1 = m2 /\ o1 = o2.
Proof.
  unfold positionKey. intros H1 H2.
  revert m2; induction m1 as [|c m1 IH]; intros [|c' m2] E;
    repeat (rewrite sapp_nil in E || rewrite sapp_cons in E); injection E as E.
  - done.
  - subst. by rewrite hyphen_free_app_hyphen in H1.
  - subst. by rewrite hyphen_free_app_hyphen in H2.
  - subst. destruct (IH m2) as [-> ->]; auto.
Qed.

Lemma ledger_keys_aux ps (m : gmap string Position.t) :
  (forall k p, m !! k = Some p ->
     k = positionKey (Position.market p) (Position.outcome p)) ->
  forall k p,
    fold_left (fun m pos =>
       <[positionKey (Position.market pos) (Position.outcome pos) := pos]> m) ps m !! k = Some p ->
    k = positionKey (Position.market p) (Position.outcome p).
Proof.
  revert m; induction ps as [|q ps IH]; intros m Hm k p; cbn; [apply Hm|].
  apply IH. intros k' p'. rewrite lookup_insert. case_decide; [|apply Hm].
  intros [= <-]. done.
Qed.

Lemma ledger_keys ps k p :
  ledger_of ps !! k = Some p ->
  k = positionKey (Position.market p) (Position.outcome p).
Proof. apply ledger_keys_aux. intros ? ?. by rewrite lookup_empty. Qed.

Lemma ledger_members_aux ps (m : gmap string Position.t) k p :
  fold_left (fun m pos =>
       <[positionKey (Position.market pos) (Position.outcome pos) := pos]> m) ps m !! k = Some p ->
  In p ps \/ m !! k = Some p.
Proof.
  revert m; induction ps as [|q ps IH]; intros m; cbn; [auto|].
  intros H. destruct (IH _ H) as [?|H']; [auto|].
  rewrite lookup_insert in H'. case_decide; [|auto].
  injection H' as ->. auto.
Qed.

Lemma ledger_members ps k p : ledger_of ps !! k = Some p -> In p ps.
Proof.
  intros H. destruct (ledger_members_aux _ _ _ _ H) as [?|H']; [done|].
  by rewrite lookup_empty in H'.
Qed.

(** ** Exact decimals *)


Module BigFacts.

Lemma ten_nonzero : ~ (inject_Z 10 == 0)%Q.
Proof. discriminate. Qed.

Lemma ten_power_pos e : (0 < inject_Z 10 ^ e)%Q.
Proof. apply Qpower_0_lt. reflexivity. Qed.

Lemma value_shift c e m :
m <= e -> (Big.value (Big.mk c e) == inject_Z (c * 10 ^ (e - m)) * inject_Z 10 ^ m)%Q.
Proof.
intros H. unfold Big.value; cbn [Big.coef Big.expo].
replace e with ((e - m) + m) at 1 by lia.
rewrite Qpower_plus by apply ten_nonzero.
rewrite inject_Z_mult, Zpower_Qpower by lia.
ring.
Qed.

Lemma value_align a b :
(Big.value a == inject_Z (Big.align a b).1.1 * inject_Z 10 ^ (Big.align a b).2)%Q /\
(Big.value b == inject_Z (Big.align a b).1.2 * inject_Z 10 ^ (Big.align a b).2)%Q.
Proof.
destruct a as [ca ea], b as [cb eb]. unfold Big.align; cbn [Big.coef Big.expo fst snd].
split; apply value_shift; lia.
Qed.

Lemma Qcompare_scale x y c :
(0 < c)%Q -> (inject_Z x * c ?= inject_Z y * c)%Q = (x ?= y).
Proof.
intros Hc. destruct (Z.compare_spec x y) as [->|H|H].
- apply Qeq_alt. reflexivity.
- apply Qlt_alt. apply Qmult_lt_r; [done|]. by rewrite <- Zlt_Qlt.
- apply Qgt_alt. apply Qmult_lt_r; [done|]. by rewrite <- Zlt_Qlt.
Qed.

(** big.js compares the rationals that the decimals denote. *)
Lemma cmp_value a b : Big.cmp a b = (Big.value a ?= Big.value b)%Q.
Proof.
destruct (value_align a b) as [Ha Hb].
rewrite (Qcompare_comp _ _ Ha _ _ Hb), Qcompare_scale by apply ten_power_pos.
unfold Big.cmp. by destruct (Big.align a b) as [[x y] m].
Qed.

Lemma lt_value a b : Big.lt a b = true <-> (Big.value a < Big.value b)%Q.
Proof. unfold Big.lt. rewrite cmp_value, Qlt_alt. by destruct (_ ?= _)%Q. Qed.

Lemma gt_value a b : Big.gt a b = true <-> (Big.value b < Big.value a)%Q.
Proof. unfold Big.gt. rewrite cmp_value, Qgt_alt. by destruct (_ ?= _)%Q. Qed.

Lemma lt_false_value a b : Big.lt a b = false <-> (Big.value b <= Big.value a)%Q.
Proof.
rewrite <- not_true_iff_false, lt_value. split; [apply Qnot_lt_le | apply Qle_not_lt].
Qed.

Lemma gt_false_value a b : Big.gt a b = false <-> (Big.value a <= Big.value b)%Q.
Proof.
rewrite <- not_true_iff_false, gt_value. split; [apply Qnot_lt_le | apply Qle_not_lt].
Qed.

Lemma value_zero : (Big.value Big.zero == 0)%Q.
Proof. reflexivity. Qed.

Lemma value_one : (Big.value Big.one == 1)%Q.
Proof. reflexivity. Qed.

Lemma value_plus a b : (Big.value (Big.plus a b) == Big.value a + Big.value b)%Q.
Proof.
destruct (value_align a b) as [Ha Hb]. rewrite Ha, Hb.
unfold Big.plus. destruct (Big.align a b) as [[x y] m]; cbn [fst snd].
unfold Big.value; cbn [Big.coef Big.expo]. rewrite inject_Z_plus. ring.
Qed.

Lemma value_minus a b : (Big.value (Big.minus a b) == Big.value a - Big.value b)%Q.
Proof.
destruct (value_align a b) as [Ha Hb]. rewrite Ha, Hb.
unfold Big.minus. destruct (Big.align a b) as [[x y] m]; cbn [fst snd].
unfold Big.value; cbn [Big.coef Big.expo]. unfold Z.sub. rewrite inject_Z_plus, inject_Z_opp. ring.
Qed.

End BigFacts.

(** ** The order gate *)

Lemma run_validateOrder config params (env : oracle) tr b :
  (within_bounds config params /\ run env (validateOrder config params) tr b = (tr, b, inl tt))
  \/ (~ within_bounds config params /\
      exists e, run env (validateOrder config params) tr b = (tr, b, inr e)).
Proof.
  unfold validateOrder, within_bounds, BigNew, BigOf.
  destruct (Big.parse (CreateOrderParams.size params)) as [size|] eqn:Es; cbn;
    [|right; split; [intros (?&?&?&?&?&_); congruence | eauto]].
  destruct (Number.toBig (Config.Trading.minOrderSize _)) as [lo|] eqn:El; cbn;
    [|right; split; [intros (?&?&?&?&?&?&?&_); congruence | eauto]].
  destruct (Big.lt size lo) eqn:E1; cbn.
  { right; split; [|eauto]. intros (?&?&?&?&?&?&?&?&Hle&_).
    apply BigFacts.lt_value in E1. simplify_eq. by apply Qle_not_lt in Hle. }
  apply BigFacts.lt_false_value in E1.
  destruct (Number.toBig (Config.Trading.maxOrderSize _)) as [hi|] eqn:Eh; cbn;
    [|right; split; [intros (?&?&?&?&?&?&?&?&_); congruence | eauto]].
  destruct (Big.gt size hi) eqn:E2; cbn.
  { right; split; [|eauto]. intros (?&?&?&?&?&?&?&?&_&Hle&_).
    apply BigFacts.gt_value in E2. simplify_eq. by apply Qle_not_lt in Hle. }
  apply BigFacts.gt_false_value in E2.
  destruct (Big.parse (CreateOrderParams.price params)) as [price|] eqn:Ep; cbn;
    [|right; split; [intros (?&?&?&?&?&?&_); congruence | eauto]].
  destruct (Big.lt price Big.zero) eqn:E3; cbn.
  { right; split; [|eauto]. intros (?&?&?&?&?&?&?&?&_&_&Hle&_).
    apply BigFacts.lt_value in E3. simplify_eq. by apply Qle_not_lt in Hle. }
  apply BigFacts.lt_false_value in E3.
  destruct (Big.gt price Big.one) eqn:E4; cbn.
  { right; split; [|eauto]. intros (?&?&?&?&?&?&?&?&_&_&_&Hle).
    apply BigFacts.gt_value in E4. simplify_eq. by apply Qle_not_lt in Hle. }
  apply BigFacts.gt_false_value in E4.
  left; split; [|reflexivity]. exists size, price, lo, hi. by repeat split.
Qed.

Lemma run_placeOrder config params (env : oracle) tr b :
  run env (placeOrder config params) tr b =
  match run env (validateOrder config params) tr b with
  | (tr0, b0, inr e) => (tr0, b0, inr e)
  | (tr0, b0, inl _) =>
      let tr1 := tr0 ++ [Call (createOrder params)] in
      match env tr0 _ (createOrder params) with
      | inr e => (tr1, b0, inr e)
      | inl response =>
          match run env refreshPositions tr1 b0 with
          | (tr2, b2, inl _) => (tr2, b2, inl response)
          | (tr2, b2, inr e) => (tr2, b2, inr e)
          end
      end
  end.
Proof.
  unfold placeOrder. rewrite run_try_catch, run_bind.
  destruct (run env (validateOrder config params) tr b) as [[tr0 b0] [[]|e]]; cbn -[refreshPositions]; [|reflexivity].
  destruct (env tr0 _ (createOrder params)) as [response|e]; cbn -[refreshPositions]; [|reflexivity].
  rewrite run_bind.
  destruct (run env refreshPositions _ b0) as [[tr2 b2] [[]|e]]; reflexivity.
Qed.

(** An order within the bounds is forwarded: the first request of
    [placeOrder] is the order-creation call. *)
Lemma placeOrder_forwards config params (env : oracle) tr bot :
  within_bounds config params ->
  exists rest, (run env (placeOrder config params) tr bot).1.1
               = tr ++ Call (createOrder params) :: rest.
Proof.
  intros Hin. rewrite run_placeOrder.
  destruct (run_validateOrder config params env tr bot) as [[_ ->]|[Hout _]]; [|done].
  cbn -[refreshPositions].
  destruct (env tr _ (createOrder params)) as [response|e]; cbn -[refreshPositions].
  - destruct (run_extends env refreshPositions (tr ++ [Call (createOrder params)]) bot)
      as [more Hm].
    destruct (run env refreshPositions _ bot) as [[tr2 b2] [[]|e]]; cbn in *;
      exists more; rewrite Hm, <- app_assoc; reflexivity.
  - exists []. reflexivity.
Qed.

(** C1. [placeOrder] forwards a candidate order to the order-creation
    call exactly when its size lies within the configured bounds and its
    price within [0, 1] (closed intervals, exact decimals); otherwise it
    throws, no request has been made and the bot's fields are untouched. *)
Theorem placeOrder_gate config params (env : oracle) tr bot :
  (within_bounds config params /\
   exists rest, (run env (placeOrder config params) tr bot).1.1
                = tr ++ Call (createOrder params) :: rest)
  \/ (~ within_bounds config params /\
      exists e, run env (placeOrder config params) tr bot = (tr, bot, inr e)).
Proof.
  destruct (run_validateOrder config params env tr bot) as [[Hin E]|[Hout [e E]]].
  - left; split; [done|]. by apply placeOrder_forwards.
  - right; split; [done|]. exists e. rewrite run_placeOrder, E. reflexivity.
Qed.

(** ** The position ledger *)

(** C10. When the positions request of [refreshPositions] is rejected, the
    error reaches the caller and the position map (with every other field)
    is what it was before the call: the map is cleared and refilled only
    after the request has been fulfilled. *)
Theorem refreshPositions_atomic_on_failure (env : oracle) tr bot e :
  env tr _ (getPositions (Bot.accountAddress bot)) = inr e ->
  run env refreshPositions tr bot
  = (tr ++ [Call (getPositions (Bot.accountAddress bot))], bot, inr e).
Proof. intros H. rewrite run_refreshPositions. cbn. by rewrite H. Qed.

Lemma refreshPositions_atomic_on_failure_witness :
  Sample.offline [] _ (getPositions (Bot.accountAddress Sample.holdingBot))
    = inr (ApiError "timeout") /\
  run Sample.offline refreshPositions [] Sample.holdingBot
    = ([Call (getPositions "0xme")], Sample.holdingBot, inr (ApiError "timeout")).
Proof.
  split; [reflexivity|].
  apply (refreshPositions_atomic_on_failure Sample.offline [] Sample.holdingBot).
  reflexivity.
Defined.

(** C9, as stated, fails: two different (market, outcome) pairs share a
    key, and after a refresh [getPosition] answers a query for the first
    pair with the position of the second. *)
Lemma position_keys_collide :
  ("a-b", "c") <> ("a", "b-c") /\
  positionKey "a-b" "c" = positionKey "a" "b-c" /\
  getPosition
    (run (Sample.world (inl [Sample.hyphenA; Sample.hyphenB]) (inl Sample.emptyBook))
         refreshPositions [] Sample.freshBot).1.2
    "a-b" "c" = Some Sample.hyphenB.
Proof. split; [discriminate|]. split; reflexivity. Qed.

(** C9, amended.  After a successful refresh whose fetched positions have
    outcomes without a hyphen, and for a queried outcome without a hyphen:
    no other such pair shares the key of the queried pair, and what
    [getPosition] returns is one of the fetched positions, of exactly the
    queried market and outcome. *)
Theorem position_keys_unique_without_hyphen (env : oracle) tr bot ps market outcome :
  env tr _ (getPositions (Bot.accountAddress bot)) = inl ps ->
  Forall (fun p => hyphen_free (Position.outcome p) = true) ps ->
  hyphen_free outcome = true ->
  (forall market' outcome',
     hyphen_free outcome' = true ->
     positionKey market' outcome' = positionKey market outcome ->
     market' = market /\ outcome' = outcome) /\
  (forall p,
     getPosition (run env refreshPositions tr bot).1.2 market outcome = Some p ->
     In p ps /\ Position.market p = market /\ Position.outcome p = outcome).
Proof.
  intros Henv Hps Ho. split.
  - intros m' o' Ho' E. by apply positionKey_inj.
  - intros p. rewrite run_refreshPositions. cbn. rewrite Henv. cbn.
    unfold getPosition. destruct bot; cbn. intros Hp.
    pose proof (ledger_members _ _ _ Hp) as Hin. split; [done|].
    apply ledger_keys in Hp.
    rewrite List.Forall_forall in Hps.
    symmetry in Hp. apply positionKey_inj in Hp; [by destruct Hp | by apply Hps | done].
Qed.

Lemma position_keys_unique_without_hyphen_witness :
  Sample.world (inl [Sample.held]) (inl Sample.emptyBook) [] _
    (getPositions (Bot.accountAddress Sample.freshBot)) = inl [Sample.held] /\
  Forall (fun p => hyphen_free (Position.outcome p) = true) [Sample.held] /\
  hyphen_free "yes" = true /\
  (forall market' outcome',
     hyphen_free outcome' = true ->
     positionKey market' outcome' = positionKey "m" "yes" ->
     market' = "m" /\ outcome' = "yes") /\
  (forall p,
     getPosition
       (run (Sample.world (inl [Sample.held]) (inl Sample.emptyBook))
            refreshPositions [] Sample.freshBot).1.2 "m" "yes" = Some p ->
     In p [Sample.held] /\ Position.market p = "m" /\ Position.outcome p = "yes").
Proof.
  split; [reflexivity|]. split; [by repeat constructor|]. split; [reflexivity|].
  apply (position_keys_unique_without_hyphen
           (Sample.world (inl [Sample.held]) (inl Sample.emptyBook)) []
           Sample.freshBot [Sample.held] "m" "yes");
    [reflexivity | by repeat constructor | reflexivity].
Defined.

(** ** Copy trading: maker-side trades *)

(** C4. A trade whose taker is not the followed address is never mirrored:
    [processTraderTrade] returns without a request and leaves the bot as
    it was, whatever the trader's win rate and the open positions. *)
Theorem maker_side_trade_not_mirrored
    (config : Config.t) (env : oracle) tr bot traderAddress trade :
  Trade.taker trade <> traderAddress ->
  run env (processTraderTrade config traderAddress trade) tr bot = (tr, bot, inl tt).
Proof.
  intros Hne. apply String.eqb_neq in Hne.
  unfold processTraderTrade. rewrite run_try_catch. cbn.
  destruct (Bot.traderActivities bot !! traderAddress) as [activity|]; cbn; [|reflexivity].
  destruct (Number.ltb _ _); cbn; [reflexivity|].
  rewrite Hne. cbn. reflexivity.
Qed.

Lemma maker_side_trade_not_mirrored_witness :
  Trade.taker Sample.makerTrade <> "0xT" /\
  run Sample.quiet (processTraderTrade Config.defaults "0xT" Sample.makerTrade) []
      (Sample.follower (Number.ofBig (Big.mk 9 (-1))))
  = ([], Sample.follower (Number.ofBig (Big.mk 9 (-1))), inl tt).
Proof.
  split; [discriminate|].
  apply (maker_side_trade_not_mirrored Config.defaults Sample.quiet [] _ "0xT" Sample.makerTrade).
  discriminate.
Defined.

(** ** Arbitrage: one execution per key *)

Lemma executeArbitrage_dropped (config : Config.t) (env : oracle) tr bot opp :
  is_Some (Bot.activeOpportunities bot !! opportunityKey opp) ->
  run env (executeArbitrage config opp) tr bot = (tr, bot, inl tt).
Proof.
  intros H. unfold executeArbitrage. rewrite run_try_catch. cbn.
  fold (opportunityKey opp).
  rewrite bool_decide_eq_true_2 by done. reflexivity.
Qed.

(** C7. While the key of a (market, outcome) pair is in the map of active
    opportunities, a call of [executeArbitrage] for an opportunity of the
    same market and outcome returns at once: no request is made, so no
    order is placed, and no field changes, so nothing is queued and the
    entry of the first opportunity stays as it is. *)
Theorem duplicate_arbitrage_dropped
    (config : Config.t) (env : oracle) tr bot first second :
  ArbitrageOpportunity.market second = ArbitrageOpportunity.market first ->
  ArbitrageOpportunity.outcome second = ArbitrageOpportunity.outcome first ->
  Bot.activeOpportunities bot !! opportunityKey first = Some first ->
  run env (executeArbitrage config second) tr bot = (tr, bot, inl tt).
Proof.
  intros Hm Ho Hin.
  apply executeArbitrage_dropped. unfold opportunityKey in *. rewrite Hm, Ho.
  by eexists.
Qed.

Lemma duplicate_arbitrage_dropped_witness :
  ArbitrageOpportunity.market Sample.crossedAgain = ArbitrageOpportunity.market Sample.crossed /\
  ArbitrageOpportunity.outcome Sample.crossedAgain = ArbitrageOpportunity.outcome Sample.crossed /\
  Bot.activeOpportunities Sample.midExecution !! opportunityKey Sample.crossed
    = Some Sample.crossed /\
  run Sample.quiet (executeArbitrage Config.defaults Sample.crossedAgain) []
      Sample.midExecution
  = ([], Sample.midExecution, inl tt).
Proof.
  split; [reflexivity|]. split; [reflexivity|]. split; [reflexivity|].
  apply (duplicate_arbitrage_dropped Config.defaults Sample.quiet []
           Sample.midExecution Sample.crossed Sample.crossedAgain);
    reflexivity.
Defined.

(** ** Copy trading: the mirrored order *)

(** C6.  The scenario, evaluated: the trader took the buy trade at 0.40
    for 50, the slippage is 0.01, the position cap 20, the
    win rate 0.7 meets the floor and a position can be opened; the order
    buy 0.41 for 20 would pass the order gate.  No order is sent:
    [processTraderTrade] returns without a request, since the call of
    [Big.min] for the size throws and the error is caught. *)
Lemma mirrored_buy_scenario_not_sent :
  Config.Trading.defaultSlippage (Config.trading copyConfig) = Number.parseFloat "0.01" /\
  Config.CopyTrading.maxPositionSize (Config.copyTrading copyConfig) = Number.parseFloat "20" /\
  Trade.taker Sample.takerTrade = "0xT"%string /\
  Number.geb (Number.ofBig (Big.mk 7 (-1)))
             (Config.CopyTrading.minConfidence (Config.copyTrading copyConfig)) = true /\
  canOpenPosition copyConfig (Sample.follower (Number.ofBig (Big.mk 7 (-1)))) = true /\
  within_bounds copyConfig (mirroredBuy "m" "yes") /\
  run Sample.quiet (processTraderTrade copyConfig "0xT" Sample.takerTrade) []
      (Sample.follower (Number.ofBig (Big.mk 7 (-1))))
  = ([], Sample.follower (Number.ofBig (Big.mk 7 (-1))), inl tt).
Proof.
  split; [vm_compute; reflexivity|]. split; [vm_compute; reflexivity|].
  split; [reflexivity|]. split; [vm_compute; reflexivity|].
  split; [vm_compute; reflexivity|]. split.
  { exists (Big.mk 20 0), (Big.mk 41 (-2)), (Big.mk 1 (-2)), (Big.mk 1 3).
    repeat split; try (vm_compute; reflexivity); vm_compute; discriminate. }
  vm_compute. reflexivity.
Qed.

(** ** Binary64 rounding *)

Module NumberFacts.

Lemma div_le_cross n1 d1 n2 d2 :
0 < d1 -> 0 < d2 -> n1 * d2 <= n2 * d1 -> n1 / d1 <= n2 / d2.
Proof.
intros H1 H2 H.
apply Z.div_le_lower_bound; [done|].
pose proof (Z.mul_div_le n1 d1 H1) as Hq.
apply (Z.mul_le_mono_pos_r _ _ d1); [done|].
apply Z.le_trans with (n1 * d2); [|done].
replace (d2 * (n1 / d1) * d1) with (d1 * (n1 / d1) * d2) by ring.
apply Z.mul_le_mono_nonneg_r; lia.
Qed.

Lemma rne_floor n d : 0 < d -> n / d <= Number.rne n d <= n / d + 1.
Proof.
intros Hd. unfold Number.rne.
destruct (2 * (n mod d) ?= d); [destruct (Z.even (n / d))|..]; lia.
Qed.

Lemma rne_le_int n d k : 0 < d -> n <= k * d -> Number.rne n d <= k.
Proof.
intros Hd H.
pose proof (Z.div_mod n d ltac:(lia)). pose proof (Z.mod_pos_bound n d Hd).
unfold Number.rne.
destruct (Z.compare_spec (2 * (n mod d)) d); [destruct (Z.even (n / d))|..]; nia.
Qed.

Lemma rne_ge_int n d k : 0 < d -> k * d <= n -> k <= Number.rne n d.
Proof.
intros Hd H. pose proof (rne_floor n d Hd).
assert (k <= n / d) by (apply Z.div_le_lower_bound; lia). lia.
Qed.

Lemma rne_mono n1 d1 n2 d2 :
0 < d1 -> 0 < d2 -> n1 * d2 <= n2 * d1 -> Number.rne n1 d1 <= Number.rne n2 d2.
Proof.
intros H1 H2 H.
pose proof (div_le_cross _ _ _ _ H1 H2 H) as Hq.
pose proof (rne_floor n1 d1 H1). pose proof (rne_floor n2 d2 H2).
destruct (Z.eq_dec (n1 / d1) (n2 / d2)) as [E|]; [|lia].
pose proof (Z.div_mod n1 d1 ltac:(lia)). pose proof (Z.mod_pos_bound n1 d1 H1).
pose proof (Z.div_mod n2 d2 ltac:(lia)). pose proof (Z.mod_pos_bound n2 d2 H2).
unfold Number.rne in *. rewrite <- E in *.
destruct (Z.compare_spec (2 * (n1 mod d1)) d1), (Z.compare_spec (2 * (n2 mod d2)) d2);
  destruct (Z.even (n1 / d1)); try lia; exfalso; nia.
Qed.

Lemma ulp_pos n d : 0 < Number.ulp n d.
Proof. unfold Number.ulp. apply Z.pow_pos_nonneg; lia. Qed.

Lemma fl_pos_nonneg n d : 0 <= n -> 0 < d -> 0 <= Number.fl_pos n d.
Proof.
intros Hn Hd. unfold Number.fl_pos. pose proof (ulp_pos n d).
assert (0 <= Number.rne n (d * Number.ulp n d)); [|nia].
apply rne_ge_int; nia.
Qed.

Lemma fl_pos_mono n1 d1 n2 d2 :
0 <= n1 -> 0 < d1 -> 0 < d2 -> n1 * d2 <= n2 * d1 ->
Number.fl_pos n1 d1 <= Number.fl_pos n2 d2.
Proof.
intros Hn H1 H2 H.
pose proof (div_le_cross _ _ _ _ H1 H2 H) as Hq.
assert (Hf1 : 0 <= n1 / d1) by (apply Z.div_pos; lia).
pose proof (Z.log2_le_mono _ _ Hq) as Hl.
unfold Number.fl_pos, Number.ulp.
set (l1 := Z.log2 (n1 / d1)) in *. set (l2 := Z.log2 (n2 / d2)) in *.
destruct (Z.eq_dec (Z.max (l1 - 52) 0) (Z.max (l2 - 52) 0)) as [E|NE].
- rewrite E. set (u := 2 ^ Z.max (l2 - 52) 0).
  assert (0 < u) by (apply Z.pow_pos_nonneg; lia).
  apply Z.mul_le_mono_nonneg_r; [lia|].
  apply rne_mono; nia.
- assert (Hl2 : 52 < l2) by lia.
  assert (Hl12 : l1 < l2) by lia.
  rewrite (Z.max_l (l2 - 52) 0) by lia.
  set (e1 := Z.max (l1 - 52) 0).
  assert (He1 : 0 <= e1 <= l2 - 52) by lia.
  assert (Hf2 : 0 < n2 / d2).
  { destruct (Z_lt_le_dec 0 (n2 / d2)); [done|].
    pose proof (Z.log2_nonpos (n2 / d2) ltac:(lia)). lia. }
  pose proof (Z.log2_spec _ Hf2) as [Hlo _]. fold l2 in Hlo.
  assert (Hhi : n1 / d1 < 2 ^ l2).
  { destruct (Z.eq_dec (n1 / d1) 0) as [->|].
    - apply Z.pow_pos_nonneg; lia.
    - pose proof (Z.log2_spec (n1 / d1) ltac:(lia)) as [_ Hh]. fold l1 in Hh.
      apply Z.lt_le_trans with (2 ^ Z.succ l1); [done|].
      apply Z.pow_le_mono_r; lia. }
  assert (Hu1 : 0 < 2 ^ e1) by (apply Z.pow_pos_nonneg; lia).
  assert (Hu2 : 0 < 2 ^ (l2 - 52)) by (apply Z.pow_pos_nonneg; lia).
  assert (HP : 2 ^ l2 = 2 ^ 52 * 2 ^ (l2 - 52)).
  { rewrite <- Z.pow_add_r by lia. f_equal. lia. }
  assert (HP1 : 2 ^ l2 = 2 ^ (l2 - e1) * 2 ^ e1).
  { rewrite <- Z.pow_add_r by lia. f_equal. lia. }
  apply Z.le_trans with (2 ^ l2).
  + rewrite HP1 at 1. apply Z.mul_le_mono_nonneg_r; [lia|].
    apply rne_le_int; [nia|].
    assert (n1 < 2 ^ l2 * d1).
    { pose proof (Z.div_mod n1 d1 ltac:(lia)). pose proof (Z.mod_pos_bound n1 d1 H1). nia. }
    rewrite Z.mul_assoc, (Z.mul_comm _ d1), <- Z.mul_assoc, <- HP1. lia.
  + rewrite HP at 1. apply Z.mul_le_mono_nonneg_r; [lia|].
    apply rne_ge_int; [nia|].
    assert (2 ^ l2 * d2 <= n2).
    { pose proof (Z.div_mod n2 d2 ltac:(lia)). pose proof (Z.mod_pos_bound n2 d2 H2). nia. }
    rewrite Z.mul_assoc, (Z.mul_comm _ d2), <- Z.mul_assoc, <- HP. lia.
Qed.


Lemma fl_pos_zero d : 0 < d -> Number.fl_pos 0 d = 0.
Proof.
intros Hd. unfold Number.fl_pos, Number.ulp.
rewrite Z.div_0_l by lia. cbn. rewrite Z.mul_1_r.
unfold Number.rne. rewrite Z.div_0_l, Z.mod_0_l by lia. cbn.
destruct d; try lia. reflexivity.
Qed.

Lemma fl_pos_one : Number.fl_pos 1 1 = 1.
Proof. reflexivity. Qed.

Lemma fl_pos_positive n d : 0 < d -> d <= n -> 0 < Number.fl_pos n d.
Proof.
intros Hd Hn.
pose proof (fl_pos_mono 1 1 n d ltac:(lia) ltac:(lia) Hd ltac:(lia)) as H.
rewrite fl_pos_one in H. lia.
Qed.

Lemma leb_Fin x y : Number.leb (Fin x) (Fin y) = (x <=? y).
Proof. unfold Number.leb; cbn. destruct (Z.ltb_spec x y), (Z.eqb_spec x y), (Z.leb_spec x y); lia. Qed.

Lemma leb_refl a : a <> NaN -> Number.leb a a = true.
Proof.
destruct a as [|[]|x]; try done; intros _.
by rewrite leb_Fin, Z.leb_refl.
Qed.

Lemma leb_trans a b c :
Number.leb a b = true -> Number.leb b c = true -> Number.leb a c = true.
Proof.
destruct a as [|[]|x], b as [|[]|y], c as [|[]|z]; try done.
rewrite !leb_Fin, !Z.leb_le. lia.
Qed.


Lemma ltb_false_leb a b :
a <> NaN -> b <> NaN -> Number.ltb a b = false -> Number.leb b a = true.
Proof.
destruct a as [|[]|x], b as [|[]|y]; try done; intros _ _.
rewrite leb_Fin. cbn. rewrite Z.ltb_ge, Z.leb_le. lia.
Qed.

Lemma ltb_leb_false a b : Number.ltb a b = true -> Number.leb b a = false.
Proof.
destruct a as [|[]|x], b as [|[]|y]; try done.
rewrite leb_Fin. cbn. rewrite Z.ltb_lt, Z.leb_gt. lia.
Qed.

Lemma leb_not_NaN a b : Number.leb a b = true -> a <> NaN /\ b <> NaN.
Proof. destruct a as [|[]|x], b as [|[]|y]; done. Qed.

Lemma of_units_not_NaN n d : Number.of_units n d <> NaN.
Proof. unfold Number.of_units. by destruct (_ <=? _). Qed.

(** Rounding is monotone. *)
Lemma of_units_mono n1 d1 n2 d2 :
0 < d1 -> 0 < d2 -> n1 * d2 <= n2 * d1 ->
Number.leb (Number.of_units n1 d1) (Number.of_units n2 d2) = true.
Proof.
intros H1 H2 H. unfold Number.of_units.
pose proof (fl_pos_nonneg (Z.abs n1) d1 ltac:(lia) H1) as K1.
pose proof (fl_pos_nonneg (Z.abs n2) d2 ltac:(lia) H2) as K2.
destruct (Z_lt_le_dec n1 0) as [N1|N1], (Z_lt_le_dec n2 0) as [N2|N2].
- assert (Hk : Number.fl_pos (Z.abs n2) d2 <= Number.fl_pos (Z.abs n1) d1)
    by (apply fl_pos_mono; nia).
  rewrite !(proj2 (Z.ltb_lt _ _)) by done.
  rewrite !Z.sgn_neg by done.
  destruct (Z.leb_spec Number.huge (Number.fl_pos (Z.abs n1) d1)),
           (Z.leb_spec Number.huge (Number.fl_pos (Z.abs n2) d2)); try done; try lia.
  rewrite leb_Fin, Z.leb_le. lia.
- rewrite (proj2 (Z.ltb_lt n1 0)) by done. rewrite (proj2 (Z.ltb_ge n2 0)) by done.
  rewrite Z.sgn_neg by done.
  destruct (Z.leb_spec Number.huge (Number.fl_pos (Z.abs n1) d1)),
           (Z.leb_spec Number.huge (Number.fl_pos (Z.abs n2) d2)); try done.
  rewrite leb_Fin, Z.leb_le.
  destruct (Z.eq_dec n2 0) as [->|]; [cbn; lia|]. rewrite Z.sgn_pos by lia. lia.
- nia.
- assert (Hk : Number.fl_pos (Z.abs n1) d1 <= Number.fl_pos (Z.abs n2) d2)
    by (apply fl_pos_mono; nia).
  rewrite !(proj2 (Z.ltb_ge _ 0)) by done.
  assert (S1 : Z.sgn n1 * Number.fl_pos (Z.abs n1) d1 = Number.fl_pos (Z.abs n1) d1).
  { destruct (Z.eq_dec n1 0) as [->|]; [by rewrite fl_pos_zero|]. rewrite Z.sgn_pos by lia. lia. }
  assert (S2 : Z.sgn n2 * Number.fl_pos (Z.abs n2) d2 = Number.fl_pos (Z.abs n2) d2).
  { destruct (Z.eq_dec n2 0) as [->|]; [by rewrite fl_pos_zero|]. rewrite Z.sgn_pos by lia. lia. }
  rewrite S1, S2.
  destruct (Z.leb_spec Number.huge (Number.fl_pos (Z.abs n1) d1)),
           (Z.leb_spec Number.huge (Number.fl_pos (Z.abs n2) d2)); try done; try lia.
  rewrite leb_Fin, Z.leb_le. lia.
Qed.

(** A number is negative exactly when what was rounded is. *)
Lemma of_units_negative n : Number.ltb (Number.of_units n 1) (Fin 0) = (n <? 0).
Proof.
unfold Number.of_units.
destruct (Z.ltb_spec n 0) as [N|N].
- pose proof (fl_pos_positive (Z.abs n) 1 ltac:(lia) ltac:(lia)).
  rewrite Z.sgn_neg by done.
  destruct (_ <=? _); cbn; [done|]. apply Z.ltb_lt. lia.
- pose proof (fl_pos_nonneg (Z.abs n) 1 ltac:(lia) ltac:(lia)).
  destruct (_ <=? _); cbn; [done|]. apply Z.ltb_ge.
  destruct (Z.eq_dec n 0) as [->|]; [cbn; lia|]. rewrite Z.sgn_pos by lia. lia.
Qed.

(** The sign of a difference is the order of its operands: a comparison
  function [(a, b) => x(a) - x(b)] orders by [x]. *)
Lemma sub_negative a b : Number.ltb (Number.sub a b) (Fin 0) = Number.ltb a b.
Proof.
destruct a as [|[]|x], b as [|[]|y]; try reflexivity.
cbn -[Number.of_units]. rewrite of_units_negative.
destruct (Z.ltb_spec (x + - y) 0), (Z.ltb_spec x y); lia.
Qed.


Lemma leb_Inf_top a : a <> NaN -> Number.leb a (Inf false) = true.
Proof. by destruct a as [|[]|x]. Qed.

Lemma leb_Inf_bottom a : a <> NaN -> Number.leb (Inf true) a = true.
Proof. by destruct a as [|[]|x]. Qed.

Lemma unit_pos : 0 < Number.unit.
Proof. reflexivity. Qed.

Lemma round_mono n1 d1 n2 d2 :
0 < d1 -> 0 < d2 -> n1 * d2 <= n2 * d1 ->
Number.leb (Number.round n1 d1) (Number.round n2 d2) = true.
Proof.
intros. apply of_units_mono; [done..|]. pose proof unit_pos. nia.
Qed.

Lemma ofZ_mono n m : n <= m -> Number.leb (Number.ofZ n) (Number.ofZ m) = true.
Proof. intros. apply round_mono; lia. Qed.

Lemma div_mono_l a b y :
0 < y -> Number.leb a b = true ->
Number.leb (Number.div a (Fin y)) (Number.div b (Fin y)) = true.
Proof.
intros Hy H. unfold Number.div.
rewrite (proj2 (Z.eqb_neq y 0)) by lia.
rewrite (proj2 (Z.ltb_ge y 0)) by lia. rewrite Z.sgn_pos, Z.abs_eq by lia.
destruct a as [|[]|x1], b as [|[]|x2]; try done.
- apply leb_Inf_bottom, of_units_not_NaN.
- apply leb_Inf_top, of_units_not_NaN.
- rewrite leb_Fin, Z.leb_le in H. apply round_mono; nia.
Qed.

Lemma add_mono_r c a b :
Number.leb a b = true ->
Number.leb (Number.add (Fin c) a) (Number.add (Fin c) b) = true.
Proof.
intros H. destruct a as [|[]|x1], b as [|[]|x2]; try done; cbn -[Number.of_units].
- apply leb_Inf_bottom, of_units_not_NaN.
- apply leb_Inf_top, of_units_not_NaN.
- rewrite leb_Fin, Z.leb_le in H. apply of_units_mono; lia.
Qed.

Lemma add_not_NaN c a : a <> NaN -> Number.add (Fin c) a <> NaN.
Proof. destruct a as [|[]|x]; try done. intros _. apply of_units_not_NaN. Qed.

Lemma min_le_l c a : c <> NaN -> a <> NaN -> Number.leb (Number.min c a) c = true.
Proof.
intros Hc Ha. destruct c as [|[]|z], a as [|[]|x]; try done;
  unfold Number.min, Number.ltb; cbn [negb andb];
  repeat match goal with |- context [?u <? ?v] => destruct (Z.ltb_spec u v) end;
  rewrite ?leb_Fin, ?Z.leb_le; try done; lia.
Qed.

Lemma min_mono_r c a b :
c <> NaN -> Number.leb a b = true ->
Number.leb (Number.min c a) (Number.min c b) = true.
Proof.
intros Hc H. destruct c as [|[]|z], a as [|[]|x], b as [|[]|y]; try done;
  rewrite ?leb_Fin, ?Z.leb_le in H;
  unfold Number.min, Number.ltb; cbn [negb andb];
  repeat match goal with |- context [?u <? ?v] => destruct (Z.ltb_spec u v) end;
  rewrite ?leb_Fin, ?Z.leb_le; try done; lia.
Qed.

End NumberFacts.

Import NumberFacts.

(** ** The win-rate heuristic *)

Lemma neutralRate_finite : exists k, neutralRate = Fin k.
Proof. eexists. vm_compute. reflexivity. Qed.

Lemma rateCeiling_finite : exists k, rateCeiling = Fin k.
Proof. eexists. vm_compute. reflexivity. Qed.

Lemma hundred_finite : Number.ofZ 100 = Fin (100 * Number.unit).
Proof. vm_compute. reflexivity. Qed.

Lemma calculateWinRate_cases now addr l :
  calculateWinRate now addr l =
  match l, recentWithin now l with
  | [], _ => Fin 0
  | _ :: _, [] => neutralRate
  | _ :: _, r => heuristicRate (length r)
  end.
Proof.
  unfold calculateWinRate. fold (recentWithin now l).
  destruct l as [|t l]; [reflexivity|].
  destruct (recentWithin now (t :: l)) as [|r rs]; cbn [length Nat.eqb];
    unfold heuristicRate, neutralRate, rateCeiling; reflexivity.
Qed.

Lemma heuristicRate_mono n m :
  (n <= m)%nat -> Number.leb (heuristicRate n) (heuristicRate m) = true.
Proof.
  intros H. unfold heuristicRate.
  destruct neutralRate_finite as [h ->], rateCeiling_finite as [c ->].
  apply min_mono_r; [done|]. apply add_mono_r. rewrite hundred_finite.
  apply div_mono_l; [pose proof unit_pos; lia|]. apply ofZ_mono. lia.
Qed.

Lemma heuristicRate_ceiling n : Number.leb (heuristicRate n) rateCeiling = true.
Proof.
  unfold heuristicRate.
  destruct neutralRate_finite as [h ->], rateCeiling_finite as [c ->].
  apply min_le_l; [done|]. apply add_not_NaN. rewrite hundred_finite.
  unfold Number.div. destruct (Number.ofZ (Z.of_nat n)) as [| |x] eqn:E.
  - by apply of_units_not_NaN in E.
  - done.
  - rewrite (proj2 (Z.eqb_neq (100 * Number.unit) 0)) by (pose proof unit_pos; lia).
    apply of_units_not_NaN.
Qed.

(** C3. [calculateWinRate] returns 0 for no trades, 0.5 for trades none
    of which lies within the last seven days, and otherwise
    [min(0.95, 0.5 + n / 100)] for the number [n] of trades of the last
    seven days; on that last branch it does not decrease when [n] grows
    and never exceeds 0.95. *)
Theorem calculateWinRate_heuristic now addr trades trades' :
  recentWithin now trades <> [] ->
  (length (recentWithin now trades) <= length (recentWithin now trades'))%nat ->
  (forall l,
     calculateWinRate now addr l =
     match l, recentWithin now l with
     | [], _ => Fin 0
     | _ :: _, [] => neutralRate
     | _ :: _, r => heuristicRate (length r)
     end) /\
  Number.leb (calculateWinRate now addr trades) (calculateWinRate now addr trades') = true /\
  Number.leb (calculateWinRate now addr trades') rateCeiling = true.
Proof.
  intros Hne Hle. split; [apply calculateWinRate_cases|].
  rewrite !calculateWinRate_cases.
  destruct trades as [|t l]; [done|].
  destruct (recentWithin now (t :: l)) as [|r rs] eqn:E; [done|].
  destruct trades' as [|t' l']; [cbn in Hle; lia|].
  destruct (recentWithin now (t' :: l')) as [|r' rs'] eqn:E'; [cbn in Hle; lia|].
  split; [by apply heuristicRate_mono | apply heuristicRate_ceiling].
Qed.

Lemma calculateWinRate_heuristic_witness :
  recentWithin 1700000100000 [Sample.takerTrade] <> [] /\
  (length (recentWithin 1700000100000 [Sample.takerTrade])
   <= length (recentWithin 1700000100000 [Sample.takerTrade; Sample.makerTrade]))%nat /\
  (forall l,
     calculateWinRate 1700000100000 "0xT" l =
     match l, recentWithin 1700000100000 l with
     | [], _ => Fin 0
     | _ :: _, [] => neutralRate
     | _ :: _, r => heuristicRate (length r)
     end) /\
  Number.leb (calculateWinRate 1700000100000 "0xT" [Sample.takerTrade])
             (calculateWinRate 1700000100000 "0xT" [Sample.takerTrade; Sample.makerTrade])
    = true /\
  Number.leb (calculateWinRate 1700000100000 "0xT" [Sample.takerTrade; Sample.makerTrade])
             rateCeiling = true.
Proof.
  split; [discriminate|]. split; [vm_compute; lia|].
  apply (calculateWinRate_heuristic 1700000100000 "0xT" [Sample.takerTrade]
           [Sample.takerTrade; Sample.makerTrade]);
    [discriminate | vm_compute; lia].
Defined.

(** ** Decimals read as numbers *)

Module RoundingFacts.


Lemma ofBig_frac b : Number.ofBig b = Number.round (Big.frac b).1 (Big.frac b).2.
Proof. unfold Number.ofBig, Big.frac. by destruct (0 <=? Big.expo b). Qed.




Lemma ofBig_not_NaN b : Number.ofBig b <> NaN.
Proof. rewrite ofBig_frac. apply of_units_not_NaN. Qed.


Lemma digit_code c d :
  Lex.digit_val c = Some d -> 48 <= Z.of_N (N_of_ascii c) <= 57.
Proof.
  unfold Lex.digit_val.
  destruct (Z.leb_spec 48 (Z.of_N (N_of_ascii c))), (Z.leb_spec (Z.of_N (N_of_ascii c)) 57);
    cbn; (done || lia).
Qed.

Lemma scan_unsigned_first s r :
  Lex.scan_unsigned s = Some r ->
  exists c rest, s = String c rest /\ (is_Some (Lex.digit_val c) \/ c = "."%char).
Proof.
  unfold Lex.scan_unsigned. destruct s as [|c rest]; [done|].
  intros H. exists c, rest. split; [done|].
  cbn [Lex.span_digits] in H.
  destruct (Lex.digit_val c) as [d|] eqn:E; [by left; eexists|right].
  cbn [Lex.strip_char] in H.
  destruct (Ascii.eqb_spec c "."); [done|]. done.
Qed.

Lemma literal_start c :
  is_Some (Lex.digit_val c) \/ c = "."%char ->
  Number.is_ws c = false /\ Ascii.eqb c "-" = false /\ Ascii.eqb c "+" = false
  /\ Ascii.eqb c "I" = false.
Proof.
  intros [[d H]| ->]; [|done].
  apply digit_code in H. unfold Number.is_ws.
  repeat split.
  - destruct (Z.leb_spec 9 (Z.of_N (N_of_ascii c))), (Z.leb_spec (Z.of_N (N_of_ascii c)) 13),
             (Z.eqb_spec (Z.of_N (N_of_ascii c)) 32); cbn; (done || lia).
  - destruct (Ascii.eqb_spec c "-"); [subst; cbn in H; lia|done].
  - destruct (Ascii.eqb_spec c "+"); [subst; cbn in H; lia|done].
  - destruct (Ascii.eqb_spec c "I"); [subst; cbn in H; lia|done].
Qed.

Lemma parseFloat_literal s r :
  Lex.scan_unsigned s = Some r ->
  Number.trim_ws s = s /\ Lex.scan_sign s = (false, s) /\ String.prefix "Infinity" s = false.
Proof.
  intros H. destruct (scan_unsigned_first s r H) as (c & rest & -> & Hc).
  destruct (literal_start c Hc) as (Hws & Hm & Hp & HI).
  repeat split.
  - cbn. by rewrite Hws.
  - unfold Lex.scan_sign, Lex.strip_char. by rewrite Hm, Hp.
  - change (String.prefix "Infinity" (String c rest))
      with (if ascii_dec "I" c then String.prefix "nfinity" rest else false).
    destruct (ascii_dec "I" c) as [<-|]; [done|reflexivity].
Qed.

(** On the strings big.js accepts, [parseFloat] is the binary64 reading of
    the decimal. *)
Lemma parseFloat_numeric s b :
  Big.parse s = Some b -> Number.parseFloat s = Number.ofBig b.
Proof.
  unfold Big.parse, Number.parseFloat.
  destruct (Lex.strip_char "-" s) as [body|] eqn:Em.
  - destruct s as [|c rest]; [done|]. cbn in Em.
    destruct (Ascii.eqb_spec c "-"); [subst c|done]. injection Em as ->.
    destruct (Lex.scan_unsigned body) as [[[[d1 d2] e] rest']|] eqn:Es; [|done].
    destruct rest'; [|done]. intros [= <-].
    destruct (parseFloat_literal _ _ Es) as (_ & _ & Hinf).
    change (Number.trim_ws (String "-" body)) with (String "-" body).
    change (Lex.scan_sign (String "-" body)) with (true, body).
    cbv beta iota. by rewrite Hinf, Es.
  - destruct (Lex.scan_unsigned s) as [[[[d1 d2] e] rest']|] eqn:Es; [|done].
    destruct rest'; [|done]. intros [= <-].
    destruct (parseFloat_literal _ _ Es) as (-> & -> & Hinf).
    cbv beta iota. by rewrite Hinf, Es.
Qed.

End RoundingFacts.

Import RoundingFacts.

(** ** Sorting and the best price levels *)

Section SortHead.
Context {A : Type} (comparefn : A -> A -> number).

Lemma sort_nil_inv l : Array.sort comparefn l = [] -> l = [].
Proof.
  destruct l as [|x l]; [done|].
  change (Array.sort comparefn (x :: l))
    with (Array.insert comparefn x (Array.sort comparefn l)).
  destruct (Array.sort comparefn l) as [|y s]; cbn [Array.insert]; [done|].
  by destruct (Array.before comparefn y x).
Qed.

(** The head of the sorted array, by one pass from the right: the entry
    that comes first is replaced only by an entry it is not strictly
    before. *)
Lemma head_sort_cons x l :
  head (Array.sort comparefn (x :: l)) =
  Some match head (Array.sort comparefn l) with
       | Some y => if Array.before comparefn y x then y else x
       | None => x
       end.
Proof.
  change (Array.sort comparefn (x :: l))
    with (Array.insert comparefn x (Array.sort comparefn l)).
  destruct (Array.sort comparefn l) as [|y s]; cbn [Array.insert head]; [done|].
  by destruct (Array.before comparefn y x).
Qed.

Lemma head_sort_In l h : head (Array.sort comparefn l) = Some h -> In h l.
Proof.
  revert h; induction l as [|x l IH]; intros h; [done|].
  rewrite head_sort_cons. intros [= <-].
  destruct (head (Array.sort comparefn l)) as [y|]; [|by left].
  destruct (Array.before comparefn y x); [right; by apply IH | by left].
Qed.
End SortHead.

Lemma before_descending a b :
  Array.before byPriceDescending a b
  = Number.ltb (Number.parseFloat (Order.price b)) (Number.parseFloat (Order.price a)).
Proof. apply sub_negative. Qed.

Lemma before_ascending a b :
  Array.before byPriceAscending a b
  = Number.ltb (Number.parseFloat (Order.price a)) (Number.parseFloat (Order.price b)).
Proof. apply sub_negative. Qed.






Lemma numeric_truthy s b : Big.parse s = Some b -> truthy (Some s) = true.
Proof. by destruct s. Qed.

Lemma head_sort_some {A} (f : A -> A -> number) x l :
  exists h, head (Array.sort f (x :: l)) = Some h.
Proof. rewrite head_sort_cons. eauto. Qed.





Lemma numericb_sound l : forallb numericb l = true -> Forall numeric l.
Proof.
  rewrite forallb_forall, List.Forall_forall. intros H o Ho. specialize (H o Ho).
  unfold numericb, numeric in *. by destruct (Big.parse (Order.price o)).
Qed.





(** ** Printing and reading decimals *)

Module PrintFacts.

Lemma digit_val_char d : is_digit d -> Lex.digit_val (Lex.digit_char d) = Some d.
Proof.
  intros [H0 H9].
  assert (d = 0 \/ d = 1 \/ d = 2 \/ d = 3 \/ d = 4 \/ d = 5 \/ d = 6 \/ d = 7 \/ d = 8 \/ d = 9)
    as H by lia.
  repeat (destruct H as [->|H]; [reflexivity|]). by subst.
Qed.

Lemma digit_char_not c d :
  Lex.digit_val c = None -> is_digit d -> Ascii.eqb (Lex.digit_char d) c = false.
Proof.
  intros Hc Hd. destruct (Ascii.eqb_spec (Lex.digit_char d) c) as [<-|]; [|done].
  by rewrite digit_val_char in Hc.
Qed.

Lemma sod_cons d ds :
  Lex.string_of_digits (d :: ds) = String (Lex.digit_char d) (Lex.string_of_digits ds).
Proof. reflexivity. Qed.

Lemma sod_app ds1 ds2 :
  Lex.string_of_digits (ds1 ++ ds2)
  = Lex.string_of_digits ds1 +:+ Lex.string_of_digits ds2.
Proof.
  induction ds1 as [|d ds1 IH]; [reflexivity|].
  rewrite <- app_comm_cons, !sod_cons, sapp_cons. by f_equal.
Qed.

Lemma span_digits_app ds rest :
  Forall is_digit ds -> stops_digits rest ->
  Lex.span_digits (Lex.string_of_digits ds +:+ rest) = (ds, rest).
Proof.
  intros Hds Hrest. induction Hds as [|d ds Hd _ IH].
  - rewrite sapp_nil. destruct rest as [|c r]; [reflexivity|].
    cbn in Hrest |- *. by rewrite Hrest.
  - rewrite sod_cons, sapp_cons. cbn [Lex.span_digits].
    by rewrite digit_val_char, IH.
Qed.

Lemma span_digits_all ds :
  Forall is_digit ds -> Lex.span_digits (Lex.string_of_digits ds) = (ds, EmptyString).
Proof.
  intros H. rewrite <- (span_digits_app ds EmptyString H I).
  f_equal. induction ds as [|d ds IH]; [reflexivity|].
  inversion H; subst. rewrite sod_cons, sapp_cons. f_equal. by apply IH.
Qed.

(** *** Digits and their number *)

Lemma of_digits_fold ds : Lex.of_digits ds = fold_left horner ds 0.
Proof. reflexivity. Qed.

Lemma fold_horner_app ds acc k :
  fold_left horner ds (acc + k * 10 ^ 0) = fold_left horner ds (acc + k).
Proof. by rewrite Z.pow_0_r, Z.mul_1_r. Qed.

Lemma fold_horner_shift ds acc :
  fold_left horner ds acc = acc * 10 ^ Z.of_nat (length ds) + fold_left horner ds 0.
Proof.
  revert acc; induction ds as [|d ds IH]; intros acc.
  - cbn. lia.
  - cbn [fold_left length]. rewrite IH, (IH (horner 0 d)). unfold horner.
    rewrite Nat2Z.inj_succ, Z.pow_succ_r by lia. ring.
Qed.

Lemma of_digits_app ds1 ds2 :
  Lex.of_digits (ds1 ++ ds2)
  = Lex.of_digits ds1 * 10 ^ Z.of_nat (length ds2) + Lex.of_digits ds2.
Proof. rewrite !of_digits_fold, fold_left_app. apply fold_horner_shift. Qed.

Lemma of_digits_zeros k : Lex.of_digits (Big.zeros k) = 0.
Proof.
  unfold Big.zeros. induction (Z.to_nat k) as [|n IH]; [reflexivity|].
  change (repeat 0 (S n)) with ([0] ++ repeat 0 n).
  rewrite of_digits_app, IH. reflexivity.
Qed.

Lemma length_zeros k : Z.of_nat (length (Big.zeros k)) = Z.max k 0.
Proof. unfold Big.zeros. rewrite repeat_length. lia. Qed.

Lemma zeros_digits k : Forall is_digit (Big.zeros k).
Proof. unfold Big.zeros. apply List.Forall_forall. intros d ?%repeat_spec. subst. split; lia. Qed.

Lemma to_digits_fuel_value fuel z acc :
  fold_left horner (Lex.to_digits_fuel fuel z acc) 0 = fold_left horner acc z.
Proof.
  revert z acc; induction fuel as [|f IH]; intros z acc; cbn [Lex.to_digits_fuel].
  - reflexivity.
  - destruct (z <? 10); [reflexivity|].
    rewrite IH. cbn [fold_left]. unfold horner at 2. f_equal.
    rewrite (Z.div_mod z 10) at 3 by lia. reflexivity.
Qed.

Lemma of_to_digits z : Lex.of_digits (Lex.to_digits z) = z.
Proof. unfold Lex.to_digits. rewrite of_digits_fold, to_digits_fuel_value. reflexivity. Qed.

Lemma to_digits_fuel_digits fuel z acc :
  0 <= z < 10 ^ (Z.of_nat fuel + 1) -> Forall is_digit acc ->
  Forall is_digit (Lex.to_digits_fuel fuel z acc).
Proof.
  revert z acc; induction fuel as [|f IH]; intros z acc Hz Hacc; cbn [Lex.to_digits_fuel].
  - constructor; [|done]. cbn in Hz. split; lia.
  - destruct (Z.ltb_spec z 10).
    + constructor; [|done]. split; lia.
    + apply IH.
      * rewrite Nat2Z.inj_succ in Hz.
        replace (Z.succ (Z.of_nat f) + 1) with (Z.succ (Z.of_nat f + 1)) in Hz by lia.
        rewrite Z.pow_succ_r in Hz by lia.
        split; [apply Z.div_pos; lia|]. apply Z.div_lt_upper_bound; lia.
      * constructor; [|done]. pose proof (Z.mod_pos_bound z 10). split; lia.
Qed.

Lemma to_digits_digits z : 0 <= z -> Forall is_digit (Lex.to_digits z).
Proof.
  intros Hz. unfold Lex.to_digits. apply to_digits_fuel_digits; [|constructor].
  split; [done|]. rewrite Z2Nat.id by apply Z.log2_nonneg.
  destruct (Z.eq_dec z 0) as [->|]; [reflexivity|].
  pose proof (Z.log2_spec z ltac:(lia)) as [_ H].
  apply Z.lt_le_trans with (2 ^ Z.succ (Z.log2 z)); [done|].
  replace (Z.log2 z + 1) with (Z.succ (Z.log2 z)) by lia.
  apply Z.pow_le_mono_l. pose proof (Z.log2_nonneg z). lia.
Qed.

Lemma to_digits_fuel_nonempty fuel z acc : Lex.to_digits_fuel fuel z acc <> [].
Proof.
  revert z acc; induction fuel as [|f IH]; intros z acc; cbn [Lex.to_digits_fuel]; [done|].
  destruct (z <? 10); [done|apply IH].
Qed.

Lemma to_digits_nonempty z : Lex.to_digits z <> [].
Proof. apply to_digits_fuel_nonempty. Qed.

End PrintFacts.

Import PrintFacts.

Module RoundTrip.

Lemma value_tenfold c e :
  (Big.value (Big.mk (10 * c) e) == Big.value (Big.mk c (e + 1)))%Q.
Proof.
  unfold Big.value; cbn [Big.coef Big.expo].
  rewrite Qpower_plus by apply BigFacts.ten_nonzero.
  rewrite inject_Z_mult. change (inject_Z 10 ^ 1)%Q with (inject_Z 10). ring.
Qed.

Lemma value_strip fuel c e :
  (Big.value (Big.mk (Big.strip_fuel fuel c e).1 (Big.strip_fuel fuel c e).2)
   == Big.value (Big.mk c e))%Q.
Proof.
  revert c e; induction fuel as [|f IH]; intros c e; cbn [Big.strip_fuel]; [reflexivity|].
  destruct (Z.eqb_spec (c mod 10) 0) as [H|]; cbn [andb]; [|reflexivity].
  destruct (c =? 0); cbn [negb]; [reflexivity|].
  rewrite IH, <- value_tenfold. f_equiv. f_equal.
  rewrite (Z.div_mod c 10) at 2 by lia. lia.
Qed.

Lemma value_normalize a : (Big.value (Big.normalize a) == Big.value a)%Q.
Proof.
  unfold Big.normalize. destruct (Z.eqb_spec (Big.coef a) 0) as [H|_].
  - unfold Big.value. rewrite H. cbn. ring.
  - pose proof (value_strip (Z.to_nat (Z.log2 (Z.abs (Big.coef a)))) (Big.coef a) (Big.expo a)) as H.
    destruct (Big.strip_fuel _ _ _) as [c e]. cbn [fst snd] in H. rewrite H. by destruct a.
Qed.

Lemma value_scale c k e :
  0 <= k -> (Big.value (Big.mk (c * 10 ^ k) e) == Big.value (Big.mk c (e + k)))%Q.
Proof.
  intros Hk. unfold Big.value; cbn [Big.coef Big.expo].
  rewrite Qpower_plus by apply BigFacts.ten_nonzero.
  rewrite inject_Z_mult, Zpower_Qpower by done. ring.
Qed.

Lemma scan_exponent_print e :
  Lex.scan_exponent ((if e <? 0 then "e-" else "e+")
                     +:+ Lex.string_of_digits (Lex.to_digits (Z.abs e)))
  = (e, EmptyString).
Proof.
  pose proof (span_digits_all (Lex.to_digits (Z.abs e))
                (to_digits_digits _ (Z.abs_nonneg e))) as Hspan.
  pose proof (to_digits_nonempty (Z.abs e)) as Hne.
  pose proof (of_to_digits (Z.abs e)) as Hval.
  destruct (Z.ltb_spec e 0); rewrite !sapp_cons, sapp_nil;
    unfold Lex.scan_exponent; cbn [Ascii.eqb Bool.eqb orb];
    unfold Lex.scan_sign, Lex.strip_char; cbn [Ascii.eqb Bool.eqb];
    rewrite Hspan; destruct (Lex.to_digits (Z.abs e)); try done;
    rewrite Hval; f_equal; lia.
Qed.


Lemma first_digit_not_minus ds rest :
  Forall is_digit ds -> ds <> [] ->
  Lex.strip_char "-" (Lex.string_of_digits ds +:+ rest) = None.
Proof.
  intros Hds Hne. destruct ds as [|d ds]; [done|].
  inversion Hds; subst. rewrite sod_cons, sapp_cons. cbn [Lex.strip_char].
  by rewrite digit_char_not.
Qed.

Lemma scan_unsigned_point (d1 d2 : list Z) tail e :
  Forall is_digit d1 -> Forall is_digit d2 -> stops_digits tail -> d1 <> [] ->
  Lex.scan_exponent tail = (e, EmptyString) ->
  Lex.scan_unsigned
    (Lex.string_of_digits d1 +:+ String "." (Lex.string_of_digits d2 +:+ tail))
  = Some (d1, d2, e, EmptyString).
Proof.
  intros H1 H2 Ht Hne He. unfold Lex.scan_unsigned.
  rewrite span_digits_app; [|done|reflexivity].
  cbn [Lex.strip_char Ascii.eqb Bool.eqb].
  rewrite span_digits_app by done. rewrite He. by destruct d1.
Qed.

Lemma scan_unsigned_plain (d1 : list Z) tail e :
  Forall is_digit d1 -> stops_digits tail -> d1 <> [] ->
  Lex.strip_char "." tail = None ->
  Lex.scan_exponent tail = (e, EmptyString) ->
  Lex.scan_unsigned (Lex.string_of_digits d1 +:+ tail) = Some (d1, [], e, EmptyString).
Proof.
  intros H1 Ht Hne Hp He. unfold Lex.scan_unsigned.
  rewrite span_digits_app by done. rewrite Hp, He. by destruct d1.
Qed.

Lemma sapp_empty_r s : s +:+ "" = s.
Proof. induction s as [|c s IH]; [reflexivity|]. rewrite sapp_cons. by f_equal. Qed.

Lemma scan_stringify c x :
  0 <= c ->
  exists d1 d2 ex,
    Lex.scan_unsigned (Big.stringify c x) = Some (d1, d2, ex, EmptyString) /\
    (Big.value (Big.mk (Lex.of_digits (d1 ++ d2)) (ex - Z.of_nat (length d2)))
     == Big.value (Big.mk c x))%Q /\
    Lex.strip_char "-" (Big.stringify c x) = None.
Proof.
  intros Hc. unfold Big.stringify.
  pose proof (to_digits_digits c Hc) as Hds.
  pose proof (to_digits_nonempty c) as Hne.
  pose proof (of_to_digits c) as Hval.
  set (ds := Lex.to_digits c) in *.
  set (n := Z.of_nat (length ds)).
  assert (Hn : 1 <= n) by (subst n; destruct ds; [done|cbn [length]; lia]).
  set (e := x + n - 1).
  destruct ((e <=? Big.NE) || (Big.PE <=? e)) eqn:Eexp.
  - (* exponential notation *)
    set (exps := (if e <? 0 then "e-" else "e+")
                 +:+ Lex.string_of_digits (Lex.to_digits (Z.abs e))).
    assert (Hstop : stops_digits exps).
    { subst exps. destruct (e <? 0); rewrite sapp_cons; reflexivity. }
    assert (Ht1 : Forall is_digit (take 1 ds)) by by apply Forall_take.
    assert (Ht1n : take 1 ds <> []) by (destruct ds; done).
    destruct (Z.ltb_spec 1 n) as [H1|H1].
    + exists (take 1 ds), (drop 1 ds), e. split; [|split].
      * cbv iota. rewrite !sapp_cons, sapp_nil.
        apply scan_unsigned_point;
          [done|by apply Forall_drop|done|done|apply scan_exponent_print].
      * rewrite take_drop, Hval. f_equiv. f_equal.
        rewrite length_drop. subst e n. lia.
      * by apply first_digit_not_minus.
    + exists (take 1 ds), [], e. split; [|split].
      * cbv iota. rewrite sapp_nil.
        apply scan_unsigned_plain; [done|done|done| |apply scan_exponent_print].
        subst exps. destruct (e <? 0); rewrite sapp_cons; reflexivity.
      * rewrite app_nil_r. assert (take 1 ds = ds) as ->.
        { apply take_ge. subst n. lia. }
        rewrite Hval. f_equiv. f_equal. cbn [length]. subst e. lia.
      * by apply first_digit_not_minus.
  - apply orb_false_iff in Eexp as [_ _].
    destruct (Z.ltb_spec e 0) as [He|He].
    + (* 0.000ddd *)
      exists [0], (Big.zeros (- e - 1) ++ ds), 0. split; [|split].
      * rewrite !sapp_cons, sapp_nil.
        rewrite <- (sapp_empty_r (Lex.string_of_digits _)).
        change (String "0" (String "." ?r))
          with (Lex.string_of_digits [0] +:+ String "." r).
        apply scan_unsigned_point; [|  |done|done|reflexivity].
        -- constructor; [split; lia|constructor].
        -- apply Forall_app. split; [apply zeros_digits|done].
      * rewrite !of_digits_app, of_digits_zeros, Hval.
        change (Lex.of_digits [0]) with 0. f_equiv. f_equal.
        rewrite length_app, Nat2Z.inj_add, length_zeros. subst e n. lia.
      * reflexivity.
    + destruct (Z.leb_spec n (e + 1)) as [Hle|Hgt].
      * (* ddd000 *)
        exists (ds ++ Big.zeros (e + 1 - n)), [], 0. split; [|split].
        -- rewrite <- (sapp_empty_r (Lex.string_of_digits _)).
           apply scan_unsigned_plain; [|done| |reflexivity|reflexivity].
           ++ apply Forall_app. split; [done|apply zeros_digits].
           ++ by destruct ds.
        -- rewrite app_nil_r, of_digits_app, of_digits_zeros, Hval, length_zeros.
           rewrite Z.add_0_r, Z.max_l by lia. rewrite value_scale by lia.
           f_equiv. f_equal. cbn [length]. subst e. lia.
        -- rewrite <- (sapp_empty_r (Lex.string_of_digits _)).
           apply first_digit_not_minus; [|by destruct ds].
           apply Forall_app. split; [done|apply zeros_digits].
      * (* dd.ddd *)
        set (m := Z.to_nat (e + 1)).
        assert (Hm : (1 <= m < length ds)%nat) by (subst m n; lia).
        exists (take m ds), (drop m ds), 0. split; [|split].
        -- rewrite !sapp_cons, sapp_nil.
           rewrite <- (sapp_empty_r (Lex.string_of_digits (drop m ds))).
           apply scan_unsigned_point;
             [by apply Forall_take|by apply Forall_drop|done| |reflexivity].
           destruct ds; [done|]. destruct m; [lia|done].
        -- rewrite take_drop, Hval. f_equiv. f_equal.
           rewrite length_drop. subst e n m. lia.
        -- apply first_digit_not_minus; [by apply Forall_take|].
           destruct ds; [done|]. destruct m; [lia|done].
Qed.


Lemma value_opp c e : (Big.value (Big.mk (- c) e) == - Big.value (Big.mk c e))%Q.
Proof. unfold Big.value; cbn [Big.coef Big.expo]. rewrite inject_Z_opp. ring. Qed.

(** What [toString] prints, [new Big] reads back as the same decimal. *)
Lemma parse_toString a :
  exists p, Big.parse (Big.toString a) = Some p /\ (Big.value p == Big.value a)%Q.
Proof.
  unfold Big.toString.
  pose proof (value_normalize a) as Hnorm.
  set (a' := Big.normalize a) in *.
  destruct (scan_stringify (Z.abs (Big.coef a')) (Big.expo a') (Z.abs_nonneg _))
    as (d1 & d2 & ex & Hscan & Hv & Hminus).
  destruct (Z.ltb_spec (Big.coef a') 0) as [Hneg|Hpos].
  - rewrite sapp_cons, sapp_nil. unfold Big.parse.
    cbn [Lex.strip_char Ascii.eqb Bool.eqb]. rewrite Hscan.
    eexists. split; [reflexivity|].
    rewrite <- Hnorm, value_opp, Hv, <- value_opp.
    rewrite Z.abs_neq, Z.opp_involutive by lia. by destruct a'.
  - unfold Big.parse. rewrite Hminus, Hscan.
    eexists. split; [reflexivity|].
    rewrite <- Hnorm, Hv, Z.abs_eq by lia. by destruct a'.
Qed.

End RoundTrip.

Import RoundTrip.

(** ** Arbitrage: detection *)

Ltac step :=
  cbn -[Array.sort Big.minus Big.plus Big.div Big.gt Big.lt Big.toString Big.parse
        Number.ofBig Number.geb Number.ltb Number.toBig executeArbitrage placeOrder].

(** Whatever the book, [findArbitrageOpportunity] makes its one request
    and returns null: past the margin test it calls [Big.min], which
    throws, and the error is caught. *)
Lemma run_findArbitrageOpportunity config (env : oracle) market outcome tr bot :
  run env (findArbitrageOpportunity config market outcome) tr bot
  = (tr ++ [Call (getOrderBook market outcome)], bot, inl None).
Proof.
  unfold findArbitrageOpportunity. rewrite run_try_catch. step.
  destruct (env tr _ (getOrderBook market outcome)) as [book|e]; step; [|done].
  destruct (_ || _); step; [done|].
  destruct (head (Array.sort byPriceDescending _)) as [bid|]; step;
    [|first [done | match goal with |- context [head ?l] => destruct (head l) end; done]].
  destruct (head (Array.sort byPriceAscending _)) as [ask|]; step; [|done].
  unfold BigNew, BigDiv, BigOf, BigMin.
  destruct (Big.parse (Order.price bid)) as [bidPrice|]; step; [|done].
  destruct (Big.parse (Order.price ask)) as [askPrice|]; step; [|done].
  destruct (Big.gt bidPrice askPrice); step; [|done].
  destruct (Big.div _ _) as [quotient|]; step; [|done].
  destruct (Number.geb _ _); step; [|done].
  destruct (Big.parse (Order.size bid)) as [bidSize|]; step; [|done].
  destruct (Big.parse (Order.size ask)) as [askSize|]; step; done.
Qed.

(** C2.  A crossed book, evaluated: the highest bid is 0.60
    for 10, the lowest ask 0.55 for 8, the bid is above the ask and the
    margin, 0.0909..., reaches the default floor of 0.02, so an opportunity
    to buy at 0.55 and sell at 0.60 is due.  [findArbitrageOpportunity]
    returns null. *)
Lemma crossed_book_opportunity_missed :
  highest (OrderBook.bids Sample.crossedBook) (Sample.level "0.60" "10") /\
  lowest (OrderBook.asks Sample.crossedBook) (Sample.level "0.55" "8") /\
  crossing Config.defaults (Big.mk 60 (-2)) (Big.mk 55 (-2)) /\
  run (Sample.world (inl []) (inl Sample.crossedBook))
      (findArbitrageOpportunity Config.defaults "m" "yes") [] Sample.freshBot
  = ([Call (getOrderBook "m" "yes")], Sample.freshBot, inl None).
Proof.
  split; [|split; [|split]].
  - split; [by left|]. exists (Big.mk 60 (-2)). split; [reflexivity|].
    intros o q [<-|[]] [= <-]. apply Qle_refl.
  - split; [by left|]. exists (Big.mk 55 (-2)). split; [reflexivity|].
    intros o q [<-|[]] [= <-]. apply Qle_refl.
  - split; [reflexivity|].
    exists (Big.mk 9090909090909090909 (-20)).
    split; vm_compute; reflexivity.
  - apply run_findArbitrageOpportunity.
Qed.

(** ** Selection of the best levels by their binary64 readings *)

Lemma Forall_head {A} (P : A -> Prop) (l : list A) (h : A) :
  Forall P l -> In h l -> P h.
Proof. rewrite List.Forall_forall. auto. Qed.

Lemma ltb_leb a b : Number.ltb a b = true -> Number.leb a b = true.
Proof. unfold Number.leb. by intros ->. Qed.

Lemma numeric_reading o : numeric o -> reading o <> NaN.
Proof.
  intros [p Hp]. unfold reading. rewrite (parseFloat_numeric _ _ Hp). apply ofBig_not_NaN.
Qed.

Lemma head_descending_greatest l h :
  Forall numeric l -> head (Array.sort byPriceDescending l) = Some h ->
  forall o, In o l -> Number.leb (reading o) (reading h) = true.
Proof.
  intros Hnum. revert h; induction l as [|x l IH]; intros h; [done|].
  inversion Hnum as [|? ? Hx Hl]; subst.
  rewrite head_sort_cons. intros [= <-].
  destruct (head (Array.sort byPriceDescending l)) as [y|] eqn:Ey.
  - specialize (IH Hl y eq_refl).
    assert (Hy : numeric y).
    { rewrite List.Forall_forall in Hl. apply Hl. by apply (head_sort_In byPriceDescending). }
    rewrite before_descending. fold (reading x) (reading y).
    destruct (Number.ltb (reading x) (reading y)) eqn:E.
    + intros o [<-|Ho]; [by apply ltb_leb | by apply IH].
    + apply ltb_false_leb in E; try by apply numeric_reading.
      intros o [<-|Ho]; [apply leb_refl; by apply numeric_reading|].
      eapply leb_trans; [by apply IH | done].
  - destruct (Array.sort byPriceDescending l) eqn:Es; [apply sort_nil_inv in Es|done].
    subst l. intros o [<-|[]]. apply leb_refl. by apply numeric_reading.
Qed.

Lemma head_ascending_least l h :
  Forall numeric l -> head (Array.sort byPriceAscending l) = Some h ->
  forall o, In o l -> Number.leb (reading h) (reading o) = true.
Proof.
  intros Hnum. revert h; induction l as [|x l IH]; intros h; [done|].
  inversion Hnum as [|? ? Hx Hl]; subst.
  rewrite head_sort_cons. intros [= <-].
  destruct (head (Array.sort byPriceAscending l)) as [y|] eqn:Ey.
  - specialize (IH Hl y eq_refl).
    assert (Hy : numeric y).
    { rewrite List.Forall_forall in Hl. apply Hl. by apply (head_sort_In byPriceAscending). }
    rewrite before_ascending. fold (reading x) (reading y).
    destruct (Number.ltb (reading y) (reading x)) eqn:E.
    + intros o [<-|Ho]; [by apply ltb_leb | by apply IH].
    + apply ltb_false_leb in E; try by apply numeric_reading.
      intros o [<-|Ho]; [apply leb_refl; by apply numeric_reading|].
      eapply leb_trans; [done | by apply IH].
  - destruct (Array.sort byPriceAscending l) eqn:Es; [apply sort_nil_inv in Es|done].
    subst l. intros o [<-|[]]. apply leb_refl. by apply numeric_reading.
Qed.

(** ** Decimal and binary64 arithmetic in the trading core *)

Lemma validateOrder_exact config params (env : oracle) tr bot :
  within_bounds config params <-> (run env (validateOrder config params) tr bot).2 = inl tt.
Proof.
  destruct (run_validateOrder config params env tr bot) as [[H E]|[H [e E]]]; rewrite E; cbn.
  - done.
  - split; [done | discriminate].
Qed.

(** C8, as stated, fails: the best levels are selected on binary64
    numbers.  Of two asks that differ in the twentieth decimal place,
    0.5 and 0.49999999999999999999, [getBestPrices] returns the higher one
    as the best ask, since both read as the same binary64 number and the
    sort keeps the book's order. *)
Lemma best_ask_not_minimal :
  run (Sample.world (inl []) (inl Sample.tiedAsks)) (getBestPrices "m" "yes") []
      Sample.freshBot
  = ([Call (getOrderBook "m" "yes")], Sample.freshBot, inl (Some ("0.6", "0.5")%string)) /\
  forall o, Order.price o = "0.5"%string -> ~ lowest (OrderBook.asks Sample.tiedAsks) o.
Proof.
  split; [vm_compute; reflexivity|].
  intros o Hp (_ & p & Ep & Hmin). rewrite Hp in Ep.
  specialize (Hmin (Sample.level "0.49999999999999999999" "8")
                   (Big.mk 49999999999999999999 (-20))).
  apply Qle_not_lt in Hmin; [apply Hmin| right; left; reflexivity | reflexivity].
  injection Ep as <-. apply BigFacts.lt_value. reflexivity.
Qed.

(** C8, amended.  Order validation works on exact decimals: an order
    passes exactly when the decimals of its size and price lie within the
    bounds.  The selection of the best bid and the best ask works on
    binary64 numbers: on a book of decimal prices with both sides
    non-empty, [getBestPrices] returns the prices of a bid whose
    [parseFloat] reading no bid exceeds and of an ask whose reading no ask
    is below. *)
Theorem decimal_validation_binary64_selection
    (config : Config.t) (env : oracle) market outcome tr bot book :
  env tr _ (getOrderBook market outcome) = inl book ->
  OrderBook.bids book <> [] -> OrderBook.asks book <> [] ->
  Forall numeric (OrderBook.bids book) -> Forall numeric (OrderBook.asks book) ->
  (forall params (env' : oracle) tr' bot',
     within_bounds config params
     <-> (run env' (validateOrder config params) tr' bot').2 = inl tt) /\
  exists bid ask,
    In bid (OrderBook.bids book) /\ In ask (OrderBook.asks book) /\
    run env (getBestPrices market outcome) tr bot
    = (tr ++ [Call (getOrderBook market outcome)], bot,
       inl (Some (Order.price bid, Order.price ask))) /\
    (forall o, In o (OrderBook.bids book) ->
               Number.leb (reading o) (reading bid) = true) /\
    (forall o, In o (OrderBook.asks book) ->
               Number.leb (reading ask) (reading o) = true).
Proof.
  intros Henv Hb Ha Hnb Hna.
  split; [intros; apply validateOrder_exact|].
  destruct (OrderBook.bids book) as [|b bs] eqn:Eb; [done|].
  destruct (OrderBook.asks book) as [|a az] eqn:Ea; [done|].
  destruct (head_sort_some byPriceDescending b bs) as [bid Hbid].
  destruct (head_sort_some byPriceAscending a az) as [ask Hask].
  pose proof (head_sort_In _ _ _ Hbid) as Hbin.
  pose proof (head_sort_In _ _ _ Hask) as Hain.
  exists bid, ask. split; [done|]. split; [done|]. split.
  - unfold getBestPrices. rewrite run_try_catch. cbn -[Array.sort truthy].
    rewrite Henv. cbn -[Array.sort truthy]. rewrite Eb, Ea. cbn -[Array.sort truthy].
    rewrite Hbid, Hask. cbn -[Array.sort truthy].
    destruct (Forall_head _ _ _ Hnb Hbin) as [pb Epb].
    destruct (Forall_head _ _ _ Hna Hain) as [pa Epa].
    rewrite (numeric_truthy _ _ Epb), (numeric_truthy _ _ Epa). reflexivity.
  - split; [by apply head_descending_greatest | by apply head_ascending_least].
Qed.

Lemma decimal_validation_binary64_selection_witness :
  Sample.world (inl []) (inl Sample.deepBook) [] _ (getOrderBook "m" "yes")
    = inl Sample.deepBook /\
  OrderBook.bids Sample.deepBook <> [] /\ OrderBook.asks Sample.deepBook <> [] /\
  Forall numeric (OrderBook.bids Sample.deepBook) /\
  Forall numeric (OrderBook.asks Sample.deepBook) /\
  (forall params (env' : oracle) tr' bot',
     within_bounds Config.defaults params
     <-> (run env' (validateOrder Config.defaults params) tr' bot').2 = inl tt) /\
  exists bid ask,
    In bid (OrderBook.bids Sample.deepBook) /\ In ask (OrderBook.asks Sample.deepBook) /\
    run (Sample.world (inl []) (inl Sample.deepBook)) (getBestPrices "m" "yes") []
        Sample.freshBot
    = ([] ++ [Call (getOrderBook "m" "yes")], Sample.freshBot,
       inl (Some (Order.price bid, Order.price ask))) /\
    (forall o, In o (OrderBook.bids Sample.deepBook) ->
               Number.leb (reading o) (reading bid) = true) /\
    (forall o, In o (OrderBook.asks Sample.deepBook) ->
               Number.leb (reading ask) (reading o) = true).
Proof.
  assert (Hnb : Forall numeric (OrderBook.bids Sample.deepBook))
    by (apply numericb_sound; vm_compute; reflexivity).
  assert (Hna : Forall numeric (OrderBook.asks Sample.deepBook))
    by (apply numericb_sound; vm_compute; reflexivity).
  split; [reflexivity|]. split; [discriminate|]. split; [discriminate|].
  split; [exact Hnb|]. split; [exact Hna|].
  apply (decimal_validation_binary64_selection Config.defaults
           (Sample.world (inl []) (inl Sample.deepBook)) "m" "yes" [] Sample.freshBot
           Sample.deepBook); [reflexivity | discriminate | discriminate | exact Hnb | exact Hna].
Defined.

(* ===================================================================== *)
(** * Further properties of the code                                      *)
(* ===================================================================== *)

(** ** The position ledger after a refresh *)

Lemma ledger_snoc ps p :
  ledger_of (ps ++ [p])
  = <[positionKey (Position.market p) (Position.outcome p) := p]> (ledger_of ps).
Proof. unfold ledger_of. by rewrite fold_left_app. Qed.

Lemma ledger_last ps market outcome :
  ledger_of ps !! positionKey market outcome = List.find (sameKey market outcome) (rev ps).
Proof.
  induction ps as [|p ps IH] using rev_ind; [done|].
  rewrite ledger_snoc, rev_app_distr. cbn [rev app List.find]. unfold sameKey at 1.
  destruct (String.eqb_spec (positionKey (Position.market p) (Position.outcome p))
                            (positionKey market outcome)) as [E|E].
  - rewrite E. apply lookup_insert_eq.
  - rewrite lookup_insert_ne by done. exact IH.
Qed.

(** X1.  After a fulfilled refresh the ledger holds the fetched positions and
    nothing else: [getPosition(market, outcome)] is the last fetched
    position stored under that key, and undefined when there is none,
    whatever the ledger held before. *)
Theorem refreshPositions_last_wins (env : oracle) tr bot ps market outcome :
  env tr _ (getPositions (Bot.accountAddress bot)) = inl ps ->
  getPosition (run env refreshPositions tr bot).1.2 market outcome
  = List.find (sameKey market outcome) (rev ps).
Proof.
  intros E. rewrite run_refreshPositions, E. cbn. unfold getPosition. cbn.
  apply ledger_last.
Qed.

Lemma refreshPositions_last_wins_witness :
  Sample.world (inl Scenario.twoPositions) (inl Sample.emptyBook) [] _
               (getPositions (Bot.accountAddress Sample.holdingBot))
  = inl Scenario.twoPositions /\
  getPosition
    (run (Sample.world (inl Scenario.twoPositions) (inl Sample.emptyBook))
         refreshPositions [] Sample.holdingBot).1.2 "a" "b-c"
  = List.find (sameKey "a" "b-c") (rev Scenario.twoPositions).
Proof.
  split; [reflexivity|].
  apply (refreshPositions_last_wins
           (Sample.world (inl Scenario.twoPositions) (inl Sample.emptyBook)) []
           Sample.holdingBot Scenario.twoPositions "a" "b-c").
  reflexivity.
Defined.

(** ** Outcomes of an order that passes validation *)

(** X2.  An order within the bounds is sent.  If the request is rejected,
    [placeOrder] throws the rejection and nothing else has happened.  If
    it is fulfilled, the positions are fetched: when that request is
    rejected [placeOrder] throws although the order has been placed, and
    the ledger is unchanged; otherwise it returns the response of the
    exchange and the ledger holds the fetched positions. *)
Theorem placeOrder_outcomes config params (env : oracle) tr bot :
  within_bounds config params ->
  let tr1 := tr ++ [Call (createOrder params)] in
  let tr2 := tr1 ++ [Call (getPositions (Bot.accountAddress bot))] in
  run env (placeOrder config params) tr bot =
  match env tr _ (createOrder params) with
  | inr e => (tr1, bot, inr e)
  | inl response =>
      match env tr1 _ (getPositions (Bot.accountAddress bot)) with
      | inr e => (tr2, bot, inr e)
      | inl ps => (tr2, Bot.set_positions (ledger_of ps) bot, inl response)
      end
  end.
Proof.
  intros Hin. cbv zeta. rewrite run_placeOrder.
  destruct (run_validateOrder config params env tr bot) as [[_ ->]|[Hout _]]; [|done].
  cbn -[refreshPositions].
  destruct (env tr _ (createOrder params)) as [response|e]; [|done].
  rewrite run_refreshPositions. cbn.
  by destruct (env _ _ (getPositions _)).
Qed.

Lemma placeOrder_outcomes_witness :
  within_bounds copyConfig (mirroredBuy "m" "yes") /\
  run Sample.quiet (placeOrder copyConfig (mirroredBuy "m" "yes")) [] Sample.freshBot =
  match Sample.quiet [] _ (createOrder (mirroredBuy "m" "yes")) with
  | inr e => ([] ++ [Call (createOrder (mirroredBuy "m" "yes"))], Sample.freshBot, inr e)
  | inl response =>
      match Sample.quiet ([] ++ [Call (createOrder (mirroredBuy "m" "yes"))]) _
                         (getPositions (Bot.accountAddress Sample.freshBot)) with
      | inr e =>
          (([] ++ [Call (createOrder (mirroredBuy "m" "yes"))])
             ++ [Call (getPositions (Bot.accountAddress Sample.freshBot))],
           Sample.freshBot, inr e)
      | inl ps =>
          (([] ++ [Call (createOrder (mirroredBuy "m" "yes"))])
             ++ [Call (getPositions (Bot.accountAddress Sample.freshBot))],
           Bot.set_positions (ledger_of ps) Sample.freshBot, inl response)
      end
  end.
Proof.
  assert (Hgate : within_bounds copyConfig (mirroredBuy "m" "yes")).
  { exists (Big.mk 20 0), (Big.mk 41 (-2)), (Big.mk 1 (-2)), (Big.mk 1 3).
    repeat split; try (vm_compute; reflexivity); vm_compute; discriminate. }
  split; [exact Hgate|].
  apply (placeOrder_outcomes copyConfig (mirroredBuy "m" "yes") Sample.quiet []
           Sample.freshBot Hgate).
Defined.

(** ** The position limit *)

Lemma at_capacity config bot n :
  Config.Trading.maxPositions (Config.trading config) = Number.ofZ n ->
  n <= Z.of_nat (size (Bot.positions bot)) ->
  canOpenPosition config bot = false.
Proof.
  intros E Hn. unfold canOpenPosition. rewrite E.
  apply ofZ_mono in Hn.
  destruct (Number.ltb _ _) eqn:El; [|done].
  apply ltb_leb_false in El. congruence.
Qed.


Lemma executeArbitrage_blocked config (env : oracle) tr bot opp :
  canOpenPosition config bot = false ->
  run env (executeArbitrage config opp) tr bot = (tr, bot, inl tt).
Proof.
  intros E. unfold executeArbitrage. rewrite run_try_catch. cbn -[canOpenPosition].
  destruct (bool_decide _); [done|]. by rewrite E.
Qed.

Lemma processTraderTrade_blocked config (env : oracle) tr bot traderAddress trade :
  canOpenPosition config bot = false ->
  run env (processTraderTrade config traderAddress trade) tr bot = (tr, bot, inl tt).
Proof.
  intros E. unfold processTraderTrade. rewrite run_try_catch. cbn -[canOpenPosition].
  destruct (Bot.traderActivities bot !! traderAddress) as [activity|]; [|done].
  destruct (Number.ltb _ _); [done|].
  destruct (negb _ && negb _); [done|]. by rewrite E.
Qed.

(** X3.  With [maxPositions] an integer, a bot that holds at least that many
    positions sends nothing: [executeArbitrage] and [processTraderTrade]
    return without a request and leave every field as it was. *)
Theorem position_limit_blocks_trading
    config (env : oracle) tr bot n opp traderAddress trade :
  Config.Trading.maxPositions (Config.trading config) = Number.ofZ n ->
  n <= Z.of_nat (size (Bot.positions bot)) ->
  run env (executeArbitrage config opp) tr bot = (tr, bot, inl tt) /\
  run env (processTraderTrade config traderAddress trade) tr bot = (tr, bot, inl tt).
Proof.
  intros E Hn. pose proof (at_capacity config bot n E Hn) as Hcap.
  split; [by apply executeArbitrage_blocked | by apply processTraderTrade_blocked].
Qed.

Lemma position_limit_blocks_trading_witness :
  Config.Trading.maxPositions (Config.trading Scenario.tightConfig) = Number.ofZ 1 /\
  1 <= Z.of_nat (size (Bot.positions Sample.holdingBot)) /\
  run Sample.quiet (executeArbitrage Scenario.tightConfig Sample.crossed) []
      Sample.holdingBot = ([], Sample.holdingBot, inl tt) /\
  run Sample.quiet (processTraderTrade Scenario.tightConfig "0xT" Sample.takerTrade) []
      Sample.holdingBot = ([], Sample.holdingBot, inl tt).
Proof.
  split; [vm_compute; reflexivity|].
  split; [vm_compute; discriminate|].
  apply (position_limit_blocks_trading Scenario.tightConfig Sample.quiet []
           Sample.holdingBot 1 Sample.crossed "0xT" Sample.takerTrade);
    [vm_compute; reflexivity | vm_compute; discriminate].
Defined.



(** ** Position size by risk *)

Lemma value_mul a b : (Big.value (BigMul a b) == Big.value a * Big.value b)%Q.
Proof.
  unfold BigMul, Big.value; cbn [Big.coef Big.expo].
  rewrite inject_Z_mult, Qpower_plus by apply BigFacts.ten_nonzero. ring.
Qed.

Lemma one_percent :
  Number.toBig (Number.div defaultRiskPercent (Number.ofZ 100)) = Some (Big.mk 1 (-2)).
Proof. vm_compute. reflexivity. Qed.

(** X6.  With the default risk of one percent, [calculatePositionSize] returns
    a decimal string that denotes exactly one hundredth of the balance;
    on a balance that is not a decimal it throws, as big.js does. *)
Theorem calculatePositionSize_one_percent (env : oracle) tr bot accountBalance :
  match Big.parse accountBalance with
  | Some balance =>
      exists amount riskAmount,
        run env (calculatePositionSize accountBalance defaultRiskPercent) tr bot
        = (tr, bot, inl amount) /\
        Big.parse amount = Some riskAmount /\
        (Big.value riskAmount == Big.value balance / 100)%Q
  | None =>
      run env (calculatePositionSize accountBalance defaultRiskPercent) tr bot
      = (tr, bot, inr InvalidNumber)
  end.
Proof.
  unfold calculatePositionSize, BigNew, BigOf. rewrite one_percent.
  destruct (Big.parse accountBalance) as [balance|]; [|reflexivity].
  destruct (parse_toString (BigMul balance (Big.mk 1 (-2)))) as (r & Er & Hr).
  exists (Big.toString (BigMul balance (Big.mk 1 (-2)))), r.
  split; [reflexivity|]. split; [exact Er|].
  rewrite Hr, value_mul. unfold Qdiv. apply Qmult_comp; reflexivity.
Qed.

(** ** The run of an execution *)

Lemma release_absent key b :
  Bot.activeOpportunities b !! key = None ->
  Bot.set_activeOpportunities (delete key (Bot.activeOpportunities b)) b = b.
Proof.
  intros H. rewrite delete_id by done. by destruct b.
Qed.

(** Whatever the opportunity, [executeArbitrage] returns with no request
    made and no field changed: it returns at the duplicate test or at the
    position limit, or it throws while it computes the trade size (at the
    latest at [Big.min]) and the handler finds no key to delete. *)
Lemma run_executeArbitrage config opp (env : oracle) tr bot :
  run env (executeArbitrage config opp) tr bot = (tr, bot, inl tt).
Proof.
  unfold executeArbitrage. fold (opportunityKey opp). rewrite run_try_catch.
  cbn -[placeOrder canOpenPosition].
  destruct (bool_decide _) eqn:Ekey; cbn -[placeOrder canOpenPosition]; [done|].
  apply bool_decide_eq_false in Ekey. rewrite <- eq_None_not_Some in Ekey.
  destruct (negb _); cbn -[placeOrder canOpenPosition]; [done|].
  unfold BigNew, BigOf, BigMin.
  destruct (Big.parse (Order.size (ArbitrageOpportunity.buyOrder opp))) as [buySize|];
    cbn -[placeOrder canOpenPosition]; [|by rewrite release_absent].
  destruct (Big.parse (Order.size (ArbitrageOpportunity.sellOrder opp))) as [sellSize|];
    cbn -[placeOrder canOpenPosition]; by rewrite release_absent.
Qed.

Lemma executeArbitrage_fields config opp (env : oracle) tr bot :
  (run env (executeArbitrage config opp) tr bot).2 = inl tt /\
  (run env (executeArbitrage config opp) tr bot).1.2
  = Bot.set_positions (Bot.positions (run env (executeArbitrage config opp) tr bot).1.2) bot.
Proof. rewrite run_executeArbitrage. by destruct bot. Qed.

(** X7.  [executeArbitrage] never throws, whatever the exchange answers, and
    when it returns only the position ledger may differ: the map of
    active opportunities is what it was before the call, so the key of a
    finished execution, failed or not, is always released. *)
Theorem executeArbitrage_settles config opp (env : oracle) tr bot :
  exists tr' positions',
    run env (executeArbitrage config opp) tr bot
    = (tr', Bot.set_positions positions' bot, inl tt).
Proof.
  pose proof (executeArbitrage_fields config opp env tr bot) as [Hr Hb].
  destruct (run env (executeArbitrage config opp) tr bot) as [[tr' b'] r].
  cbn [fst snd] in Hr, Hb. subst r. exists tr', (Bot.positions b'). by rewrite <- Hb.
Qed.

(** X8.  [executeArbitrage] sends nothing: whatever the opportunity and
    the state of the bot, the run makes no request, so neither leg is ever
    placed, and no field of the bot changes.  Past the duplicate test and
    the position limit the trade size is computed with [Big.min], which
    big.js does not have. *)
Theorem executeArbitrage_sends_nothing config opp (env : oracle) tr bot :
  (run env (executeArbitrage config opp) tr bot).1 = (tr, bot).
Proof. by rewrite run_executeArbitrage. Qed.

(** ** No opportunity is ever found *)

(** X9.  [findArbitrageOpportunity] returns null on every book: on a
    book whose best bid clears the margin over its best ask the trade size
    is computed with [Big.min], which big.js does not have, and the error
    is caught like every other. *)
Theorem findArbitrageOpportunity_finds_nothing
    config (env : oracle) market outcome tr bot :
  (run env (findArbitrageOpportunity config market outcome) tr bot).2 = inl None.
Proof. by rewrite run_findArbitrageOpportunity. Qed.

(** ** One market, both outcomes *)

Lemma run_checkMarketOpportunities config market (env : oracle) tr bot :
  run env (checkMarketOpportunities config market) tr bot
  = (tr ++ [Call (getOrderBook (Market.id market) "yes");
            Call (getOrderBook (Market.id market) "no")], bot, inl tt).
Proof.
  unfold checkMarketOpportunities.
  rewrite run_try_catch, run_bind, run_findArbitrageOpportunity.
  rewrite run_bind, run_findArbitrageOpportunity.
  rewrite <- app_assoc. reflexivity.
Qed.

(** X10.  [checkMarketOpportunities] never throws, and when it returns only
    the position ledger may differ from before. *)
Theorem checkMarketOpportunities_settles config market (env : oracle) tr bot :
  (run env (checkMarketOpportunities config market) tr bot).2 = inl tt /\
  (run env (checkMarketOpportunities config market) tr bot).1.2
  = Bot.set_positions
      (Bot.positions (run env (checkMarketOpportunities config market) tr bot).1.2) bot.
Proof. rewrite run_checkMarketOpportunities. by destruct bot. Qed.

(** X11.  The requests of [checkMarketOpportunities] are the order book
    of the outcome yes and then the order book of the outcome no, whatever
    the first request gave, and nothing else: no order follows, since no
    opportunity is ever found. *)
Theorem checkMarketOpportunities_requests config market (env : oracle) tr bot :
  (run env (checkMarketOpportunities config market) tr bot).1.1
  = tr ++ [Call (getOrderBook (Market.id market) "yes");
           Call (getOrderBook (Market.id market) "no")].
Proof. by rewrite run_checkMarketOpportunities. Qed.

(** ** The run of a mirrored trade *)

(** Whatever the trade, [processTraderTrade] returns with no request made
    and no field changed: it returns at one of its tests, or it throws
    while it computes the size of the order (at the latest at [Big.min])
    and the error is caught. *)
Lemma run_processTraderTrade config traderAddress trade (env : oracle) tr bot :
  run env (processTraderTrade config traderAddress trade) tr bot = (tr, bot, inl tt).
Proof.
  unfold processTraderTrade. rewrite run_try_catch. cbn -[placeOrder canOpenPosition].
  destruct (Bot.traderActivities bot !! traderAddress) as [activity|]; [|done].
  cbn -[placeOrder canOpenPosition].
  destruct (Number.ltb _ _); cbn -[placeOrder canOpenPosition]; [done|].
  destruct (negb _ && negb _); cbn -[placeOrder canOpenPosition]; [done|].
  destruct (canOpenPosition config bot); cbn -[placeOrder canOpenPosition]; [|done].
  unfold BigNew, BigOf, BigMin.
  destruct (Big.parse (Trade.size trade)) as [traderSize|];
    cbn -[placeOrder canOpenPosition]; [|done].
  by destruct (Number.toBig (Config.CopyTrading.maxPositionSize _)) as [maxSize|].
Qed.

Lemma processTraderTrade_fields config traderAddress trade (env : oracle) tr bot :
  (run env (processTraderTrade config traderAddress trade) tr bot).2 = inl tt /\
  (run env (processTraderTrade config traderAddress trade) tr bot).1.2
  = Bot.set_positions
      (Bot.positions (run env (processTraderTrade config traderAddress trade) tr bot).1.2)
      bot.
Proof. rewrite run_processTraderTrade. by destruct bot. Qed.

(** X12.  [processTraderTrade] never throws, whatever the trade and whatever
    the exchange answers, and when it returns only the position ledger may
    differ from before. *)
Theorem processTraderTrade_settles config traderAddress trade (env : oracle) tr bot :
  exists tr' positions',
    run env (processTraderTrade config traderAddress trade) tr bot
    = (tr', Bot.set_positions positions' bot, inl tt).
Proof.
  pose proof (processTraderTrade_fields config traderAddress trade env tr bot) as [Hr Hb].
  destruct (run env (processTraderTrade config traderAddress trade) tr bot) as [[tr' b'] r].
  cbn [fst snd] in Hr, Hb. subst r. exists tr', (Bot.positions b'). by rewrite <- Hb.
Qed.

(** X13.  [processTraderTrade] sends nothing: whatever the trade, the
    trader and the state of the bot, the run makes no request, so no trade
    is ever mirrored, and no field of the bot changes.  Past its tests the
    size of the order is computed with [Big.min], which big.js does not
    have. *)
Theorem processTraderTrade_sends_nothing
    config traderAddress trade (env : oracle) tr bot :
  (run env (processTraderTrade config traderAddress trade) tr bot).1 = (tr, bot).
Proof. by rewrite run_processTraderTrade. Qed.

(** ** Confidence under the default floor *)

Lemma leb_ltb_trans a b c :
  Number.leb a b = true -> Number.ltb b c = true -> Number.ltb a c = true.
Proof.
  destruct a as [|[]|x], b as [|[]|y], c as [|[]|z]; try done.
  rewrite leb_Fin. cbn. rewrite Z.leb_le, !Z.ltb_lt. lia.
Qed.

Lemma ltb_leb_trans_false a b c :
  Number.ltb b a = false -> Number.leb b c = true -> Number.ltb c a = false.
Proof.
  destruct a as [|[]|x], b as [|[]|y], c as [|[]|z]; try done.
  rewrite leb_Fin. cbn. rewrite Z.leb_le, !Z.ltb_ge. lia.
Qed.

Lemma below_floor_iff_few_recent now traderAddress trades :
  Number.ltb (calculateWinRate now traderAddress trades) (Number.parseFloat "0.6") = true
  <-> (length (recentWithin now trades) < 10)%nat.
Proof.
  rewrite calculateWinRate_cases.
  assert (H0 : Number.ltb (Fin 0) (Number.parseFloat "0.6") = true)
    by (vm_compute; reflexivity).
  assert (Hn : Number.ltb neutralRate (Number.parseFloat "0.6") = true)
    by (vm_compute; reflexivity).
  assert (H9 : Number.ltb (heuristicRate 9) (Number.parseFloat "0.6") = true)
    by (vm_compute; reflexivity).
  assert (H10 : Number.ltb (heuristicRate 10) (Number.parseFloat "0.6") = false)
    by (vm_compute; reflexivity).
  generalize dependent (Number.parseFloat "0.6"). intros floor H0 Hn H9 H10.
  destruct trades as [|t trades].
  { cbn [recentWithin List.filter length]. split; [lia | intros _; exact H0]. }
  destruct (recentWithin now (t :: trades)) as [|r rs] eqn:E.
  { cbn [length]. split; [lia | intros _; exact Hn]. }
  set (n := length (r :: rs)). clearbody n. split.
  - intros Hlt. destruct (Nat.lt_ge_cases n 10) as [Hl|Hge]; [exact Hl|].
    apply heuristicRate_mono in Hge.
    pose proof (ltb_leb_trans_false _ _ _ H10 Hge) as Hf.
    rewrite Hf in Hlt. discriminate Hlt.
  - intros Hlt. apply leb_ltb_trans with (heuristicRate 9); [|exact H9].
    apply heuristicRate_mono. lia.
Qed.

(** X14.  Under the default confidence floor of 0.6 the win rate that
    [calculateWinRate] gives is below the floor exactly when fewer than ten
    of the trades lie within the last seven days, and the trades of such a
    trader are not mirrored: [processTraderTrade] makes no request and
    changes nothing. *)
Theorem ten_recent_trades_for_confidence
    config traderAddress trade (env : oracle) tr bot activity now trades :
  Config.CopyTrading.minConfidence (Config.copyTrading config) = Number.parseFloat "0.6" ->
  Bot.traderActivities bot !! traderAddress = Some activity ->
  TraderActivity.winRate activity = calculateWinRate now traderAddress trades ->
  (Number.ltb (TraderActivity.winRate activity)
              (Config.CopyTrading.minConfidence (Config.copyTrading config)) = true
   <-> (length (recentWithin now trades) < 10)%nat) /\
  ((length (recentWithin now trades) < 10)%nat ->
   run env (processTraderTrade config traderAddress trade) tr bot = (tr, bot, inl tt)).
Proof.
  intros Hfloor Hact Hrate. rewrite Hfloor, Hrate.
  split; [apply below_floor_iff_few_recent|].
  intros Hn.
  pose proof (proj2 (below_floor_iff_few_recent now traderAddress trades) Hn) as Hlow.
  unfold processTraderTrade. rewrite run_try_catch. cbn -[placeOrder canOpenPosition].
  rewrite Hact. cbn -[placeOrder canOpenPosition]. rewrite Hfloor, Hrate, Hlow.
  reflexivity.
Qed.

Lemma ten_recent_trades_for_confidence_witness :
  Config.CopyTrading.minConfidence (Config.copyTrading Config.defaults)
    = Number.parseFloat "0.6" /\
  Bot.traderActivities (Sample.follower (Fin 0)) !! "0xT"%string
    = Some (TraderActivity.mk "0xT" [] (Fin 0) 0 0) /\
  TraderActivity.winRate (TraderActivity.mk "0xT" [] (Fin 0) 0 0)
    = calculateWinRate 1700000000000 "0xT" [] /\
  (Number.ltb (TraderActivity.winRate (TraderActivity.mk "0xT" [] (Fin 0) 0 0))
              (Config.CopyTrading.minConfidence (Config.copyTrading Config.defaults)) = true
   <-> (length (recentWithin 1700000000000 []) < 10)%nat) /\
  ((length (recentWithin 1700000000000 []) < 10)%nat ->
   run Sample.quiet (processTraderTrade Config.defaults "0xT" Sample.takerTrade) []
       (Sample.follower (Fin 0))
   = ([], Sample.follower (Fin 0), inl tt)).
Proof.
  split; [vm_compute; reflexivity|]. split; [reflexivity|]. split; [reflexivity|].
  apply (ten_recent_trades_for_confidence Config.defaults "0xT" Sample.takerTrade
           Sample.quiet [] (Sample.follower (Fin 0))
           (TraderActivity.mk "0xT" [] (Fin 0) 0 0) 1700000000000 []);
    [vm_compute; reflexivity | reflexivity | reflexivity].
Defined.

(** ** Polling the trades of a trader *)

Lemma run_forEach_bind {X} (env : oracle) (x : X) xs (body : X -> prog unit) tr b :
  run env (forEach (x :: xs) body) tr b =
  let '(tr', b', r) := run env (body x) tr b in
  match r with
  | inl _ => run env (forEach xs body) tr' b'
  | inr e => (tr', b', inr e)
  end.
Proof.
  cbn [forEach]. change (bind ?p ?f) with (p ≫= f). apply run_bind.
Qed.

Lemma run_forEach_processTraderTrade config traderAddress trades (env : oracle) tr bot :
  (run env (forEach trades (processTraderTrade config traderAddress)) tr bot).2 = inl tt /\
  (run env (forEach trades (processTraderTrade config traderAddress)) tr bot).1.2
  = Bot.set_positions
      (Bot.positions
         (run env (forEach trades (processTraderTrade config traderAddress)) tr bot).1.2)
      bot.
Proof.
  revert tr bot. induction trades as [|t trades IH]; intros tr bot.
  { cbn. by destruct bot. }
  rewrite run_forEach_bind.
  pose proof (processTraderTrade_fields config traderAddress t env tr bot) as [H1 H2].
  destruct (run env (processTraderTrade config traderAddress t) tr bot) as [[tr1 b1] r1].
  cbn in H1, H2. subst r1.
  destruct (IH tr1 b1) as [H3 H4]. split; [done|].
  rewrite H4. rewrite H2 at 2. by destruct bot.
Qed.

Lemma run_checkTraderTrades config now fetched traderAddress (env : oracle) tr bot :
  run env (checkTraderTrades config now fetched traderAddress) tr bot =
  match Bot.traderActivities bot !! traderAddress with
  | None => (tr, bot, inl tt)
  | Some activity =>
      match List.filter (isNewTrade activity traderAddress) fetched with
      | [] => (tr, bot, inl tt)
      | newTrades =>
          let '(tr1, b1, _) :=
            run env (forEach newTrades (processTraderTrade config traderAddress)) tr bot in
          (tr1,
           set_traderActivities
             (<[traderAddress := updatedActivity now fetched traderAddress activity]>
                (Bot.traderActivities b1)) b1,
           inl tt)
      end
  end.
Proof.
  unfold checkTraderTrades. rewrite run_try_catch. cbn -[processTraderTrade forEach].
  destruct (Bot.traderActivities bot !! traderAddress) as [activity|]; [|done].
  cbn -[processTraderTrade forEach].
  destruct (List.filter (isNewTrade activity traderAddress) fetched) as [|t new] eqn:E;
    [done|].
  cbn -[processTraderTrade forEach]. change (bind ?p ?f) with (p ≫= f). rewrite run_bind.
  pose proof (run_forEach_processTraderTrade config traderAddress (t :: new) env tr bot)
    as [H _].
  destruct (run env (forEach (t :: new) (processTraderTrade config traderAddress)) tr bot)
    as [[tr1 b1] r]. cbn in H. subst r. reflexivity.
Qed.

Lemma latestTime_bound trades last t :
  In t trades -> Trade.timestamp t <= latestTime trades last.
Proof.
  unfold latestTime. induction trades as [|x trades IH]; [done|].
  cbn [map fold_right]. intros [->|H]; [lia|]. specialize (IH H). lia.
Qed.

Lemma latestTime_last trades last : last <= latestTime trades last.
Proof.
  unfold latestTime. induction trades as [|x trades IH]; cbn [map fold_right]; lia.
Qed.

Lemma filter_none {A} (f : A -> bool) l :
  (forall x, In x l -> f x = false) -> List.filter f l = [].
Proof.
  induction l as [|x l IH]; [done|]. intros H. cbn [List.filter].
  rewrite (H x) by (by left). apply IH. intros y Hy. apply H. by right.
Qed.

Lemma no_new_after_update now fetched traderAddress activity :
  List.filter (isNewTrade (updatedActivity now fetched traderAddress activity) traderAddress)
              fetched = [].
Proof.
  apply filter_none. intros t Ht. unfold isNewTrade, updatedActivity.
  cbn [TraderActivity.lastTradeTime].
  pose proof (latestTime_bound fetched (TraderActivity.lastTradeTime activity) t Ht).
  apply andb_false_iff. left. apply Z.ltb_ge. lia.
Qed.

(** X15.  [checkTraderTrades] never throws, and a trade is mirrored at most
    once: when the same list of trades is fetched again, the next check of
    the trader places no order, fetches no positions and changes no
    field. *)
Theorem checkTraderTrades_polls_once
    config now fetched traderAddress (env : oracle) tr bot :
  (run env (checkTraderTrades config now fetched traderAddress) tr bot).2 = inl tt /\
  forall now' (env' : oracle),
    run env' (checkTraderTrades config now' fetched traderAddress)
        (run env (checkTraderTrades config now fetched traderAddress) tr bot).1.1
        (run env (checkTraderTrades config now fetched traderAddress) tr bot).1.2
    = ((run env (checkTraderTrades config now fetched traderAddress) tr bot).1.1,
       (run env (checkTraderTrades config now fetched traderAddress) tr bot).1.2,
       inl tt).
Proof.
  rewrite run_checkTraderTrades.
  destruct (Bot.traderActivities bot !! traderAddress) as [activity|] eqn:Eact.
  2:{ split; [done|]. intros now' env'. cbn [fst snd].
      by rewrite run_checkTraderTrades, Eact. }
  destruct (List.filter (isNewTrade activity traderAddress) fetched) as [|t new] eqn:Enew.
  { split; [done|]. intros now' env'. cbn [fst snd].
    by rewrite run_checkTraderTrades, Eact, Enew. }
  destruct (run env (forEach (t :: new) (processTraderTrade config traderAddress)) tr bot)
    as [[tr1 b1] r]. cbn [fst snd]. split; [done|]. intros now' env'.
  rewrite run_checkTraderTrades. cbn [set_traderActivities Bot.traderActivities].
  rewrite lookup_insert_eq, no_new_after_update. reflexivity.
Qed.



(** ** Rounds of monitoring *)

Lemma checkTraderTrades_quiet config now fetched traderAddress (env : oracle) tr b :
  quiet fetched b traderAddress ->
  run env (checkTraderTrades config now (fetched traderAddress) traderAddress) tr b
  = (tr, b, inl tt).
Proof.
  unfold quiet. intros H. rewrite run_checkTraderTrades.
  destruct (Bot.traderActivities b !! traderAddress) as [activity|]; [|done].
  by rewrite H.
Qed.

Lemma checkTraderTrades_activities config now fetched traderAddress (env : oracle) tr b :
  let r := run env (checkTraderTrades config now fetched traderAddress) tr b in
  r.2 = inl tt /\
  Bot.isRunning r.1.2 = Bot.isRunning b /\
  (Bot.traderActivities r.1.2 = Bot.traderActivities b
   \/ exists activity,
        Bot.traderActivities b !! traderAddress = Some activity /\
        Bot.traderActivities r.1.2
        = <[traderAddress := updatedActivity now fetched traderAddress activity]>
            (Bot.traderActivities b)).
Proof.
  cbv zeta. rewrite run_checkTraderTrades.
  destruct (Bot.traderActivities b !! traderAddress) as [activity|] eqn:Eact;
    [|split; [done|]; split; [done | by left]].
  destruct (List.filter (isNewTrade activity traderAddress) fetched) as [|t new];
    [split; [done|]; split; [done | by left]|].
  pose proof (run_forEach_processTraderTrade config traderAddress (t :: new) env tr b)
    as [_ H].
  destruct (run env (forEach (t :: new) (processTraderTrade config traderAddress)) tr b)
    as [[tr1 b1] r]. cbn [fst snd] in *.
  split; [done|]. rewrite H. split; [done|]. right. exists activity. by split.
Qed.

Lemma quiet_after_check config now fetched traderAddress (env : oracle) tr b other :
  (other = traderAddress \/ quiet fetched b other) ->
  quiet fetched
        (run env (checkTraderTrades config now (fetched traderAddress) traderAddress) tr b).1.2
        other.
Proof.
  intros Hq.
  destruct (decide (other = traderAddress)) as [->|Hne].
  - unfold quiet. rewrite run_checkTraderTrades.
    destruct (Bot.traderActivities b !! traderAddress) as [activity|] eqn:Eact;
      [|cbn [fst snd]; by rewrite Eact].
    destruct (List.filter (isNewTrade activity traderAddress) (fetched traderAddress))
      as [|t new] eqn:Enew; [cbn [fst snd]; by rewrite Eact|].
    destruct (run env (forEach (t :: new) (processTraderTrade config traderAddress)) tr b)
      as [[tr1 b1] r]. cbn [fst snd set_traderActivities Bot.traderActivities].
    rewrite lookup_insert_eq. apply no_new_after_update.
  - destruct Hq as [|Hq]; [done|].
    destruct (checkTraderTrades_activities config now (fetched traderAddress) traderAddress
                env tr b) as (_ & _ & [E|(activity & _ & E)]);
      unfold quiet in *; rewrite E; [done|].
    by rewrite lookup_insert_ne.
Qed.

Lemma run_round config now fetched (followed : list string) (env : oracle) tr b :
  let r := run env (forEach followed (fun traderAddress =>
                      checkTraderTrades config (now traderAddress) (fetched traderAddress)
                                        traderAddress)) tr b in
  r.2 = inl tt /\
  Bot.isRunning r.1.2 = Bot.isRunning b /\
  forall other, (In other followed \/ quiet fetched b other) -> quiet fetched r.1.2 other.
Proof.
  cbv zeta. revert tr b. induction followed as [|a followed IH]; intros tr b.
  { cbn. split; [done|]. split; [done|]. by intros other [[]|H]. }
  rewrite run_forEach_bind.
  pose proof (checkTraderTrades_activities config (now a) (fetched a) a env tr b)
    as (Hr & Hrun & _).
  pose proof (fun other => quiet_after_check config (now a) fetched a env tr b other) as Hq.
  destruct (run env (checkTraderTrades config (now a) (fetched a) a) tr b) as [[tr1 b1] r1].
  cbn [fst snd] in *. subst r1.
  destruct (IH tr1 b1) as (H1 & H2 & H3).
  split; [done|]. split; [congruence|].
  intros other [[->|Hin]|Hquiet].
  - apply H3. right. apply Hq. by left.
  - apply H3. by left.
  - apply H3. right. apply Hq. by right.
Qed.

Lemma run_quiet_round config now fetched (followed : list string) (env : oracle) tr b :
  (forall other, In other followed -> quiet fetched b other) ->
  run env (forEach followed (fun traderAddress =>
             checkTraderTrades config (now traderAddress) (fetched traderAddress)
                               traderAddress)) tr b
  = (tr, b, inl tt).
Proof.
  induction followed as [|a followed IH]; intros H; [done|].
  rewrite run_forEach_bind, checkTraderTrades_quiet by (apply H; by left).
  apply IH. intros other Hin. apply H. by right.
Qed.

(** X17.  A round of [monitorTrades] never throws, and a round that fetches the
    same lists of trades as the round before places no order, fetches no
    positions and changes no field: across rounds no trade is mirrored
    twice. *)
Theorem monitorTrades_round_repeats_nothing
    config now fetched (followed : Followed.t) (env : oracle) tr bot :
  (run env (monitorTrades config now fetched followed) tr bot).2 = inl tt /\
  forall now' (env' : oracle),
    run env' (monitorTrades config now' fetched followed)
        (run env (monitorTrades config now fetched followed) tr bot).1.1
        (run env (monitorTrades config now fetched followed) tr bot).1.2
    = ((run env (monitorTrades config now fetched followed) tr bot).1.1,
       (run env (monitorTrades config now fetched followed) tr bot).1.2,
       inl tt).
Proof.
  unfold monitorTrades at 1 3 4 5 6. cbn -[checkTraderTrades forEach monitorTrades].
  destruct (Bot.isRunning bot) eqn:Erun; cbn -[checkTraderTrades forEach monitorTrades].
  2:{ split; [done|]. intros now' env'. unfold monitorTrades.
      cbn -[checkTraderTrades forEach]. by rewrite Erun. }
  rewrite run_try_catch.
  pose proof (run_round config now fetched followed env tr bot) as (Hr & Hrun & Hq).
  destruct (run env (forEach followed _) tr bot) as [[tr1 b1] r1].
  cbn [fst snd] in *. subst r1. split; [done|]. intros now' env'.
  unfold monitorTrades. cbn -[checkTraderTrades forEach]. rewrite Hrun, Erun.
  cbn -[checkTraderTrades forEach]. rewrite run_try_catch, run_quiet_round; [done|].
  intros other Hin. apply Hq. by left.
Qed.

(** ** Initialization of the trader activities *)

Lemma run_initialize_one now fetched traderAddress (env : oracle) tr b :
  run env
      (try_catch
         (positions ← await (getPositions traderAddress);
          modify (fun b =>
            set_traderActivities
              (<[traderAddress := initialActivity now fetched traderAddress]>
                 (Bot.traderActivities b)) b))
         (fun _ => Ret tt)) tr b
  = (tr ++ [Call (getPositions traderAddress)],
     match env tr _ (getPositions traderAddress) with
     | inl _ =>
         set_traderActivities
           (<[traderAddress := initialActivity now fetched traderAddress]>
              (Bot.traderActivities b)) b
     | inr _ => b
     end,
     inl tt).
Proof.
  rewrite run_try_catch. cbn. by destruct (env tr _ (getPositions traderAddress)).
Qed.

Lemma run_initialize_cons now fetched a (followed : list string) (env : oracle) tr b :
  run env (initializeTraderActivities now fetched (a :: followed)) tr b
  = run env (initializeTraderActivities now fetched followed)
        (tr ++ [Call (getPositions a)])
        match env tr _ (getPositions a) with
        | inl _ =>
            set_traderActivities
              (<[a := initialActivity now fetched a]> (Bot.traderActivities b)) b
        | inr _ => b
        end.
Proof.
  unfold initializeTraderActivities at 1. rewrite run_forEach_bind.
  fold (initialActivity now fetched a).
  by rewrite (run_initialize_one now fetched a env tr b).
Qed.

Lemma initial_quiet now fetched traderAddress :
  newestFirst (fetched traderAddress) ->
  List.filter (isNewTrade (initialActivity now fetched traderAddress) traderAddress)
              (fetched traderAddress) = [].
Proof.
  intros H. apply filter_none. intros t Ht. unfold isNewTrade, initialActivity.
  cbn [TraderActivity.lastTradeTime].
  apply andb_false_iff. left. apply Z.ltb_ge.
  unfold newestFirst in H. destruct (fetched traderAddress) as [|first rest]; [done|].
  by apply H.
Qed.

Lemma initialize_quiet now fetched (followed : list string) (env : oracle) tr b :
  (forall a, In a followed -> newestFirst (fetched a)) ->
  let r := run env (initializeTraderActivities now fetched followed) tr b in
  r.2 = inl tt /\
  Bot.positions r.1.2 = Bot.positions b /\
  forall other, quiet fetched b other -> quiet fetched r.1.2 other.
Proof.
  cbv zeta. revert tr b. induction followed as [|a followed IH]; intros tr b Hnew.
  { cbn. done. }
  rewrite run_initialize_cons.
  set (b1 := match env tr _ (getPositions a) with inl _ => _ | inr _ => b end).
  destruct (IH (tr ++ [Call (getPositions a)]) b1) as (H1 & H2 & H3).
  { intros x Hx. apply Hnew. by right. }
  split; [done|]. split.
  { rewrite H2. subst b1. by destruct (env tr _ (getPositions a)). }
  intros other Hq. apply H3. subst b1.
  destruct (env tr _ (getPositions a)); [|done].
  unfold quiet in *. cbn [set_traderActivities Bot.traderActivities].
  destruct (decide (other = a)) as [->|Hne].
  - rewrite lookup_insert_eq. apply initial_quiet. apply Hnew. by left.
  - by rewrite lookup_insert_ne.
Qed.

(** X18.  [initializeTraderActivities] never throws, and the trades that exist
    when a fresh bot is initialized are never mirrored: with lists that
    start with their newest trade, a round of [monitorTrades] that fetches
    the same lists places no order, fetches no positions and changes no
    field. *)
Theorem startup_trades_not_mirrored
    config now fetched (followed : Followed.t) (env : oracle) tr bot :
  Bot.traderActivities bot = ∅ ->
  (forall a, In a followed -> newestFirst (fetched a)) ->
  (run env (initializeTraderActivities now fetched followed) tr bot).2 = inl tt /\
  forall now' (env' : oracle),
    run env' (monitorTrades config now' fetched followed)
        (run env (initializeTraderActivities now fetched followed) tr bot).1.1
        (run env (initializeTraderActivities now fetched followed) tr bot).1.2
    = ((run env (initializeTraderActivities now fetched followed) tr bot).1.1,
       (run env (initializeTraderActivities now fetched followed) tr bot).1.2,
       inl tt).
Proof.
  intros Hempty Hnew.
  pose proof (initialize_quiet now fetched followed env tr bot Hnew) as (Hr & _ & Hq).
  destruct (run env (initializeTraderActivities now fetched followed) tr bot)
    as [[tr1 b1] r1]. cbn [fst snd] in *. split; [done|]. intros now' env'.
  unfold monitorTrades. cbn -[checkTraderTrades forEach].
  destruct (negb (Bot.isRunning b1)); [done|].
  rewrite run_try_catch, run_quiet_round; [done|].
  intros other _. apply Hq. unfold quiet. by rewrite Hempty, lookup_empty.
Qed.

Lemma startup_trades_not_mirrored_witness :
  Bot.traderActivities Sample.freshBot = ∅ /\
  (forall a, In a ["0xT"%string] -> newestFirst (Scenario.fetched a)) /\
  (run Sample.quiet
       (initializeTraderActivities Scenario.clock Scenario.fetched ["0xT"%string]) []
       Sample.freshBot).2 = inl tt /\
  forall now' (env' : oracle),
    run env' (monitorTrades copyConfig now' Scenario.fetched ["0xT"%string])
        (run Sample.quiet
             (initializeTraderActivities Scenario.clock Scenario.fetched ["0xT"%string]) []
             Sample.freshBot).1.1
        (run Sample.quiet
             (initializeTraderActivities Scenario.clock Scenario.fetched ["0xT"%string]) []
             Sample.freshBot).1.2
    = ((run Sample.quiet
            (initializeTraderActivities Scenario.clock Scenario.fetched ["0xT"%string]) []
            Sample.freshBot).1.1,
       (run Sample.quiet
            (initializeTraderActivities Scenario.clock Scenario.fetched ["0xT"%string]) []
            Sample.freshBot).1.2,
       inl tt).
Proof.
  assert (Hnew : forall a, In a ["0xT"%string] -> newestFirst (Scenario.fetched a)).
  { intros a _ t [<-|[]]. simpl. lia. }
  split; [reflexivity|]. split; [exact Hnew|].
  apply (startup_trades_not_mirrored copyConfig Scenario.clock Scenario.fetched
           ["0xT"%string] Sample.quiet [] Sample.freshBot); [reflexivity | exact Hnew].
Defined.



(** ** The followed traders *)

Lemma existsb_eqb_In a (s : list string) : existsb (String.eqb a) s = true <-> In a s.
Proof.
  rewrite existsb_exists. split.
  - intros (x & Hx & E). apply String.eqb_eq in E. by subst.
  - intros H. exists a. split; [done | apply String.eqb_refl].
Qed.

Lemma add_In a x (s : Followed.t) : In x (Followed.add a s) <-> x = a \/ In x s.
Proof.
  unfold Followed.add. destruct (existsb (String.eqb a) s) eqn:E.
  - apply existsb_eqb_In in E. split; [by right | by intros [->|]].
  - rewrite in_app_iff. cbn. split; [intros [|[|[]]]; auto | intros [|]; auto].
Qed.

Lemma add_NoDup a (s : Followed.t) : List.NoDup s -> List.NoDup (Followed.add a s).
Proof.
  intros H. unfold Followed.add. destruct (existsb (String.eqb a) s) eqn:E; [done|].
  assert (Hn : ~ In a s) by (rewrite <- existsb_eqb_In; congruence).
  clear E. induction s as [|y s IH]; cbn [app].
  - constructor; [intros [] | constructor].
  - inversion H as [|? ? Hy Hs]; subst. constructor.
    + rewrite in_app_iff. cbn. intros [|[->|[]]]; [done|]. apply Hn. by left.
    + apply IH; [done|]. intros Hin. apply Hn. by right.
Qed.

Lemma delete_In a x (s : Followed.t) : In x (Followed.delete a s) <-> In x s /\ x <> a.
Proof.
  unfold Followed.delete. rewrite List.filter_In, negb_true_iff, String.eqb_neq. done.
Qed.

Lemma delete_NoDup a (s : Followed.t) : List.NoDup s -> List.NoDup (Followed.delete a s).
Proof. apply List.NoDup_filter. Qed.

Lemma ofArray_spec (l : list string) (s : Followed.t) :
  List.NoDup s ->
  List.NoDup (fold_left (fun s a => Followed.add a s) l s) /\
  forall x, In x (fold_left (fun s a => Followed.add a s) l s) <-> In x s \/ In x l.
Proof.
  revert s. induction l as [|a l IH]; intros s H; cbn [fold_left].
  { split; [done|]. intros x. split; [by left | by intros [|[]]]. }
  destruct (IH (Followed.add a s) (add_NoDup a s H)) as [H1 H2].
  split; [done|]. intros x. rewrite H2, add_In. cbn [In].
  split; [intros [[->|]|]; auto | intros [|[->|]]; auto].
Qed.

(** X20.  The followed traders are a set: the constructor keeps each configured
    address once, and neither [addTrader] nor [removeTrader] introduces a
    duplicate, so [getFollowedTraders] never lists a trader twice. *)
Theorem followed_traders_distinct config accountAddress :
  List.NoDup (CopyTradingBot.getFollowedTraders (CopyTradingBot.new config accountAddress)) /\
  (forall x,
     In x (CopyTradingBot.getFollowedTraders (CopyTradingBot.new config accountAddress))
     <-> In x (Config.CopyTrading.traderAddresses (Config.copyTrading config))) /\
  forall c address,
    List.NoDup (CopyTradingBot.getFollowedTraders c) ->
    List.NoDup (CopyTradingBot.getFollowedTraders (CopyTradingBot.addTrader address c)) /\
    List.NoDup (CopyTradingBot.getFollowedTraders (CopyTradingBot.removeTrader address c)).
Proof.
  unfold CopyTradingBot.getFollowedTraders, CopyTradingBot.new, Followed.ofArray.
  cbn [CopyTradingBot.followedTraders].
  destruct (ofArray_spec (Config.CopyTrading.traderAddresses (Config.copyTrading config)) [])
    as [H1 H2]; [constructor|].
  split; [done|]. split.
  - intros x. rewrite H2. split; [by intros [[]|] | by right].
  - intros c address H. split; [by apply add_NoDup | by apply delete_NoDup].
Qed.

Lemma delete_absent a (s : Followed.t) : ~ In a s -> Followed.delete a s = s.
Proof.
  intros H. unfold Followed.delete. induction s as [|x s IH]; [done|].
  cbn [List.filter]. destruct (String.eqb_spec x a) as [->|_].
  - exfalso. apply H. by left.
  - cbn [negb]. rewrite IH; [done|]. intros Hin. apply H. by right.
Qed.

(** X21.  [removeTrader] undoes [addTrader] for a trader that was not followed:
    the list of followed traders is as before; and adding a trader twice is
    the same as adding it once. *)
Theorem add_then_remove_trader address c :
  ~ In address (CopyTradingBot.getFollowedTraders c) ->
  CopyTradingBot.getFollowedTraders
    (CopyTradingBot.removeTrader address (CopyTradingBot.addTrader address c))
  = CopyTradingBot.getFollowedTraders c /\
  CopyTradingBot.addTrader address (CopyTradingBot.addTrader address c)
  = CopyTradingBot.addTrader address c.
Proof.
  unfold CopyTradingBot.getFollowedTraders, CopyTradingBot.removeTrader,
    CopyTradingBot.addTrader. cbn [CopyTradingBot.followedTraders CopyTradingBot.bot].
  intros H. split.
  - unfold Followed.add.
    assert (E : existsb (String.eqb address) (CopyTradingBot.followedTraders c) = false).
    { apply not_true_iff_false. intros E. apply H. by apply existsb_eqb_In. }
    rewrite E.
    unfold Followed.delete. rewrite List.filter_app. cbn [List.filter].
    rewrite String.eqb_refl. cbn [negb]. rewrite app_nil_r. by apply delete_absent.
  - f_equal. unfold Followed.add at 1.
    rewrite (proj2 (existsb_eqb_In address (Followed.add address (CopyTradingBot.followedTraders c)))); [done|].
    apply add_In. by left.
Qed.

Lemma add_then_remove_trader_witness :
  ~ In "0xT"%string
       (CopyTradingBot.getFollowedTraders (CopyTradingBot.new Config.defaults "0xme")) /\
  CopyTradingBot.getFollowedTraders
    (CopyTradingBot.removeTrader "0xT"
       (CopyTradingBot.addTrader "0xT" (CopyTradingBot.new Config.defaults "0xme")))
  = CopyTradingBot.getFollowedTraders (CopyTradingBot.new Config.defaults "0xme") /\
  CopyTradingBot.addTrader "0xT"
    (CopyTradingBot.addTrader "0xT" (CopyTradingBot.new Config.defaults "0xme"))
  = CopyTradingBot.addTrader "0xT" (CopyTradingBot.new Config.defaults "0xme").
Proof.
  assert (H : ~ In "0xT"%string
                (CopyTradingBot.getFollowedTraders
                   (CopyTradingBot.new Config.defaults "0xme")))
    by (simpl; tauto).
  split; [exact H|].
  apply (add_then_remove_trader "0xT" (CopyTradingBot.new Config.defaults "0xme") H).
Defined.

(** X22.  After [removeTrader] the trader is not in the list of followed
    traders and has no activity: a trade of the trader is not mirrored and
    a check of the trader places no order and changes no field. *)
Theorem removed_trader_not_mirrored
    config address c now fetched trade (env : oracle) tr :
  let c' := CopyTradingBot.removeTrader address c in
  ~ In address (CopyTradingBot.getFollowedTraders c') /\
  run env (processTraderTrade config address trade) tr (CopyTradingBot.bot c')
  = (tr, CopyTradingBot.bot c', inl tt) /\
  run env (checkTraderTrades config now fetched address) tr (CopyTradingBot.bot c')
  = (tr, CopyTradingBot.bot c', inl tt).
Proof.
  cbv zeta. split; [|split].
  - unfold CopyTradingBot.getFollowedTraders, CopyTradingBot.removeTrader.
    cbn [CopyTradingBot.followedTraders]. rewrite delete_In. tauto.
  - unfold processTraderTrade, CopyTradingBot.removeTrader. rewrite run_try_catch.
    cbn -[placeOrder canOpenPosition]. by rewrite lookup_delete_eq.
  - rewrite run_checkTraderTrades. unfold CopyTradingBot.removeTrader.
    cbn [CopyTradingBot.bot set_traderActivities Bot.traderActivities].
    by rewrite lookup_delete_eq.
Qed.

(** ** The configuration *)

(** X23.  The position cap of copy trading and the position cap of arbitrage
    are read from the same variable MAX_POSITION_SIZE: when it is set (and
    not empty) both caps are that number, and only when it is unset or
    empty do they differ, as 100 and 500. *)
Theorem position_caps_share_a_variable (getenv : string -> option string) :
  match getenv "MAX_POSITION_SIZE"%string with
  | Some (String c r) =>
      Config.CopyTrading.maxPositionSize (Config.copyTrading (Config.load getenv))
      = Number.parseFloat (String c r) /\
      Config.Arbitrage.maxPositionSize (Config.arbitrage (Config.load getenv))
      = Number.parseFloat (String c r)
  | _ =>
      Config.CopyTrading.maxPositionSize (Config.copyTrading (Config.load getenv))
      = Number.parseFloat "100" /\
      Config.Arbitrage.maxPositionSize (Config.arbitrage (Config.load getenv))
      = Number.parseFloat "500"
  end.
Proof.
  unfold Config.load.
  cbn [Config.copyTrading Config.arbitrage Config.CopyTrading.maxPositionSize
       Config.Arbitrage.maxPositionSize].
  destruct (getenv "MAX_POSITION_SIZE"%string) as [[|c r]|]; split; reflexivity.
Qed.

Lemma split_commas_nonempty s : Config.split_commas s <> [].
Proof.
  destruct s as [|c r]; [done|]. cbn [Config.split_commas].
  destruct (Ascii.eqb c ","); [done|]. by destruct (Config.split_commas r).
Qed.

Lemma concat_cons sep x y ys :
  String.concat sep (x :: y :: ys) = x +:+ sep +:+ String.concat sep (y :: ys).
Proof. reflexivity. Qed.

Lemma split_commas_concat s : String.concat "," (Config.split_commas s) = s.
Proof.
  induction s as [|c r IH]; [done|]. cbn [Config.split_commas].
  pose proof (split_commas_nonempty r) as Hne.
  destruct (Ascii.eqb_spec c ",") as [->|Hc].
  - destruct (Config.split_commas r) as [|w ws] eqn:E; [done|].
    rewrite concat_cons, IH, sapp_nil, sapp_cons, sapp_nil. reflexivity.
  - destruct (Config.split_commas r) as [|w ws] eqn:E; [done|].
    destruct ws as [|x xs].
    + change (String.concat "," [w]) with w in IH.
      change (String.concat "," [String c w]) with (String c w). by rewrite IH.
    + rewrite concat_cons in *. rewrite sapp_cons. by rewrite IH.
Qed.

Lemma split_commas_comma_free s : Forall (fun w => comma_free w = true) (Config.split_commas s).
Proof.
  induction s as [|c r IH]; [by repeat constructor|]. cbn [Config.split_commas].
  destruct (Ascii.eqb c ",") eqn:Ec; [by constructor|].
  destruct (Config.split_commas r) as [|w ws]; [by repeat constructor; cbn; rewrite Ec|].
  inversion IH; subst. constructor; [|done]. cbn. by rewrite Ec.
Qed.

(** X24.  When TRADER_ADDRESSES is set, the configured addresses are its pieces
    between commas: joined with commas they give the variable back, no
    address contains a comma, and there is at least one address (the empty
    one when the variable is empty). *)
Theorem trader_addresses_split (getenv : string -> option string) value :
  getenv "TRADER_ADDRESSES"%string = Some value ->
  let addresses :=
    Config.CopyTrading.traderAddresses (Config.copyTrading (Config.load getenv)) in
  String.concat "," addresses = value /\
  Forall (fun w => comma_free w = true) addresses /\
  addresses <> [].
Proof.
  intros E. cbv zeta. unfold Config.load.
  cbn [Config.copyTrading Config.CopyTrading.traderAddresses]. rewrite E.
  split; [apply split_commas_concat|]. split;
    [apply split_commas_comma_free | apply split_commas_nonempty].
Qed.

Lemma trader_addresses_split_witness :
  Scenario.setting "TRADER_ADDRESSES" "0xA,0xB" "TRADER_ADDRESSES"%string
    = Some "0xA,0xB"%string /\
  String.concat ","
    (Config.CopyTrading.traderAddresses
       (Config.copyTrading (Config.load (Scenario.setting "TRADER_ADDRESSES" "0xA,0xB"))))
  = "0xA,0xB"%string /\
  Forall (fun w => comma_free w = true)
    (Config.CopyTrading.traderAddresses
       (Config.copyTrading (Config.load (Scenario.setting "TRADER_ADDRESSES" "0xA,0xB")))) /\
  Config.CopyTrading.traderAddresses
    (Config.copyTrading (Config.load (Scenario.setting "TRADER_ADDRESSES" "0xA,0xB")))
  <> [].
Proof.
  split; [reflexivity|].
  apply (trader_addresses_split (Scenario.setting "TRADER_ADDRESSES" "0xA,0xB")
           "0xA,0xB"). reflexivity.
Defined.



(** ** Which error an order is rejected with *)

(** X26.  [placeOrder] reports the first check that fails, in the order size
    below the minimum, size above the maximum, price: an order whose size
    is below the minimum is rejected for its size whatever its price, and
    the price is looked at only for a size within the bounds.  In each
    case the error is thrown before any request. *)
Theorem placeOrder_reports_first_failure
    config params (env : oracle) tr bot size lo hi :
  Big.parse (CreateOrderParams.size params) = Some size ->
  Number.toBig (Config.Trading.minOrderSize (Config.trading config)) = Some lo ->
  Number.toBig (Config.Trading.maxOrderSize (Config.trading config)) = Some hi ->
  ((Big.value size < Big.value lo)%Q ->
   run env (placeOrder config params) tr bot
   = (tr, bot, inr (SizeBelowMinimum (CreateOrderParams.size params)
                      (Config.Trading.minOrderSize (Config.trading config))))) /\
  ((Big.value lo <= Big.value size)%Q -> (Big.value hi < Big.value size)%Q ->
   run env (placeOrder config params) tr bot
   = (tr, bot, inr (SizeExceedsMaximum (CreateOrderParams.size params)
                      (Config.Trading.maxOrderSize (Config.trading config))))) /\
  ((Big.value lo <= Big.value size)%Q -> (Big.value size <= Big.value hi)%Q ->
   match Big.parse (CreateOrderParams.price params) with
   | None => run env (placeOrder config params) tr bot = (tr, bot, inr InvalidNumber)
   | Some price =>
       (Big.value price < 0)%Q \/ (1 < Big.value price)%Q ->
       run env (placeOrder config params) tr bot
       = (tr, bot, inr (InvalidPrice (CreateOrderParams.price params)))
   end).
Proof.
  intros Es El Eh. rewrite !run_placeOrder.
  unfold validateOrder, BigNew, BigOf. rewrite Es, El. cbn -[Big.lt Big.gt].
  split; [|split].
  - intros H. by rewrite (proj2 (BigFacts.lt_value _ _) H).
  - intros H1 H2. rewrite (proj2 (BigFacts.lt_false_value _ _) H1), Eh. cbn -[Big.lt Big.gt].
    by rewrite (proj2 (BigFacts.gt_value _ _) H2).
  - intros H1 H2. rewrite (proj2 (BigFacts.lt_false_value _ _) H1), Eh. cbn -[Big.lt Big.gt].
    rewrite (proj2 (BigFacts.gt_false_value _ _) H2).
    destruct (Big.parse (CreateOrderParams.price params)) as [price|]; [|done].
    cbn -[Big.lt Big.gt]. intros [H|H].
    + rewrite (proj2 (BigFacts.lt_value price Big.zero)) by (by rewrite BigFacts.value_zero).
      reflexivity.
    + rewrite (proj2 (BigFacts.gt_value price Big.one)) by (by rewrite BigFacts.value_one).
      rewrite orb_true_r. reflexivity.
Qed.

Lemma placeOrder_reports_first_failure_witness :
  Big.parse (CreateOrderParams.size (mirroredBuy "m" "yes")) = Some (Big.mk 20 0) /\
  Number.toBig (Config.Trading.minOrderSize (Config.trading Scenario.largeOrders))
    = Some (Big.mk 1 2) /\
  Number.toBig (Config.Trading.maxOrderSize (Config.trading Scenario.largeOrders))
    = Some (Big.mk 1 3) /\
  ((Big.value (Big.mk 20 0) < Big.value (Big.mk 1 2))%Q ->
   run Sample.quiet (placeOrder Scenario.largeOrders (mirroredBuy "m" "yes")) []
       Sample.freshBot
   = ([], Sample.freshBot,
      inr (SizeBelowMinimum (CreateOrderParams.size (mirroredBuy "m" "yes"))
             (Config.Trading.minOrderSize (Config.trading Scenario.largeOrders))))) /\
  ((Big.value (Big.mk 1 2) <= Big.value (Big.mk 20 0))%Q ->
   (Big.value (Big.mk 1 3) < Big.value (Big.mk 20 0))%Q ->
   run Sample.quiet (placeOrder Scenario.largeOrders (mirroredBuy "m" "yes")) []
       Sample.freshBot
   = ([], Sample.freshBot,
      inr (SizeExceedsMaximum (CreateOrderParams.size (mirroredBuy "m" "yes"))
             (Config.Trading.maxOrderSize (Config.trading Scenario.largeOrders))))) /\
  ((Big.value (Big.mk 1 2) <= Big.value (Big.mk 20 0))%Q ->
   (Big.value (Big.mk 20 0) <= Big.value (Big.mk 1 3))%Q ->
   match Big.parse (CreateOrderParams.price (mirroredBuy "m" "yes")) with
   | None =>
       run Sample.quiet (placeOrder Scenario.largeOrders (mirroredBuy "m" "yes")) []
           Sample.freshBot = ([], Sample.freshBot, inr InvalidNumber)
   | Some price =>
       (Big.value price < 0)%Q \/ (1 < Big.value price)%Q ->
       run Sample.quiet (placeOrder Scenario.largeOrders (mirroredBuy "m" "yes")) []
           Sample.freshBot
       = ([], Sample.freshBot,
          inr (InvalidPrice (CreateOrderParams.price (mirroredBuy "m" "yes"))))
   end).
Proof.
  split; [reflexivity|]. split; [vm_compute; reflexivity|].
  split; [vm_compute; reflexivity|].
  apply (placeOrder_reports_first_failure Scenario.largeOrders (mirroredBuy "m" "yes")
           Sample.quiet [] Sample.freshBot (Big.mk 20 0) (Big.mk 1 2) (Big.mk 1 3));
    [reflexivity | vm_compute; reflexivity | vm_compute; reflexivity].
Defined.

(** ** Reading the book changes nothing *)

Lemma run_getBestPrices (env : oracle) market outcome tr bot :
  exists r,
    run env (getBestPrices market outcome) tr bot
    = (tr ++ [Call (getOrderBook market outcome)], bot, inl r).
Proof.
  unfold getBestPrices. rewrite run_try_catch. cbn -[Array.sort Nat.ltb truthy].
  destruct (env tr _ (getOrderBook market outcome)) as [book|e];
    cbn -[Array.sort Nat.ltb truthy]; [|by eexists].
  destruct (if (0 <? length (OrderBook.bids book))%nat then _ else None) as [bid|];
    [|by eexists].
  destruct (if (0 <? length (OrderBook.asks book))%nat then _ else None) as [ask|];
    [|by eexists].
  destruct (negb _ || negb _); by eexists.
Qed.

(** X27.  [getBestPrices] and [findArbitrageOpportunity] only read: each makes
    exactly one request, for the order book, and leaves every field of the
    bot as it was, whatever the exchange answers. *)
Theorem book_readers_change_nothing config (env : oracle) market outcome tr bot :
  (run env (getBestPrices market outcome) tr bot).1
  = (tr ++ [Call (getOrderBook market outcome)], bot) /\
  (run env (findArbitrageOpportunity config market outcome) tr bot).1
  = (tr ++ [Call (getOrderBook market outcome)], bot).
Proof.
  destruct (run_getBestPrices env market outcome tr bot) as [r ->].
  by rewrite run_findArbitrageOpportunity.
Qed.

